(** * Kokkos task nodes (core/src/impl/Kokkos_TaskNode.hpp)

    A shallow embedding of the task-graph node classes of the header:
    [PoolAllocatedObjectBase], [ReferenceCountedBase], [TaskNode],
    [AggregateTask], [RunnableTaskBase] and [RunnableTask], followed by the
    properties of their member functions.

    Objects live in a store indexed by addresses, so that a reference held
    by one node (a predecessor link, a waiter) aliases the object it names.
    A member function that can hit a contract macro returns an [outcome]. *)

From Stdlib Require Import ZArith List Bool Lia Permutation.
From stdpp Require Import base option gmap list.
Import ListNotations.

Local Open Scope Z_scope.

(** ** Machine integers *)

(** A signed [w]-bit integer is a [Z]; [wrap w] is the two's complement
    reduction applied where the code narrows or an atomic update overflows. *)
Definition wrap (w : Z) (z : Z) : Z :=
  (z + 2 ^ (w - 1)) mod 2 ^ w - 2 ^ (w - 1).

Definition in_range (w : Z) (z : Z) : Prop :=
  - 2 ^ (w - 1) <= z < 2 ^ (w - 1).

Definition int16_t (z : Z) : Z := wrap 16 z.
Definition int32_t (z : Z) : Z := wrap 32 z.

Definition INT32_MAX : Z := 2 ^ 31 - 1.

(** ** Outcomes of a member function *)

Inductive outcome (A : Type) : Type :=
| Done (a : A)     (* the call returns [a] *)
| Aborted          (* a contract macro failed: the process is aborted *)
| Undefined.       (* a reference names no live object of the expected type *)

Arguments Done {A} a.
Arguments Aborted {A}.
Arguments Undefined {A}.

#[global] Instance outcome_ret : MRet outcome := fun A a => Done a.

#[global] Instance outcome_bind : MBind outcome := fun A B k m =>
  match m with
  | Done a => k a
  | Aborted => Aborted
  | Undefined => Undefined
  end.

Definition is_done {A : Type} (m : outcome A) : bool :=
  match m with Done _ => true | _ => false end.

(** Modelled from the spec: the contract macros [KOKKOS_EXPECTS] and
    [KOKKOS_ASSERT] come from Kokkos_Macros.hpp, which is not part of the
    header. A violated contract is a fatal assertion that aborts the
    process; a satisfied one has no effect. *)
Definition KOKKOS_EXPECTS (condition : bool) : outcome unit :=
  if condition then Done tt else Aborted.

Definition KOKKOS_ASSERT (condition : bool) : outcome unit :=
  if condition then Done tt else Aborted.

(** ** Addresses *)

(** An object is named by its address; a pointer is an optional address,
    [None] being [nullptr]. *)
Definition address := positive.
Definition pointer := option address.
Definition nullptr : pointer := None.

Definition is_nullptr (p : pointer) : bool :=
  match p with None => true | Some _ => false end.

(** ** enum TaskType : int16_t *)

Inductive TaskType : Type := TaskTeam | TaskSingle | Aggregate.

Definition TaskType_value (t : TaskType) : Z :=
  match t with TaskTeam => 0 | TaskSingle => 1 | Aggregate => 2 end.

Definition TaskType_eqb (a b : TaskType) : bool :=
  TaskType_value a =? TaskType_value b.

(** Modelled from the spec: [enum class TaskPriority] is declared in
    Kokkos_TaskScheduler_fwd.hpp, which is not part of the header. It has
    the enumerators High, Regular and Low over [int]; a value of the type is
    its underlying integer, the enumerators being numbered in that order. *)
Definition TaskPriority := Z.
Definition High : TaskPriority := 0.
Definition Regular : TaskPriority := 1.
Definition Low : TaskPriority := 2.

Definition is_enumerator (p : TaskPriority) : Prop :=
  p = High \/ p = Regular \/ p = Low.

(** ** PoolAllocatedObjectBase<int32_t> *)

Record PoolAllocatedObjectBase : Type := { m_alloc_size : Z }.

Definition PoolAllocatedObjectBase_ctor (allocation_size : Z) : PoolAllocatedObjectBase :=
  {| m_alloc_size := allocation_size |}.

Definition get_allocation_size (this : PoolAllocatedObjectBase) : Z :=
  m_alloc_size this.

(** ** ReferenceCountedBase<int32_t> *)

Record ReferenceCountedBase : Type := { m_ref_count : Z }.

Definition ReferenceCountedBase_ctor (initial_reference_count : Z) : ReferenceCountedBase :=
  {| m_ref_count := initial_reference_count |}.

(** Modelled from the spec: [Kokkos::atomic_fetch_add] and
    [Kokkos::atomic_increment] are not part of the header. Run by one thread
    at a time, the first returns the old value and stores the sum, the second
    stores the successor, both in the counter's 32-bit type. *)
Definition atomic_fetch_add (this : ReferenceCountedBase) (val : Z)
  : Z * ReferenceCountedBase :=
  (m_ref_count this, {| m_ref_count := int32_t (m_ref_count this + val) |}).

Definition atomic_increment (this : ReferenceCountedBase) : ReferenceCountedBase :=
  {| m_ref_count := int32_t (m_ref_count this + 1) |}.

Definition decrement_and_check_reference_count (this : ReferenceCountedBase)
  : outcome (bool * ReferenceCountedBase) :=
  let '(old_count, this') := atomic_fetch_add this (-1) in
  KOKKOS_ASSERT (0 <? old_count) ;;
  mret (old_count =? 1, this').

Definition increment_reference_count (this : ReferenceCountedBase)
  : ReferenceCountedBase :=
  atomic_increment this.

(** ** The collaborators of TaskNode supplied by TaskQueueTraits *)

(** Modelled from the spec: [TaskQueueTraits::intrusive_task_base_type] is the
    queue's intrusive linkage, opaque to the header beyond composition. The
    header observes it only through [is_enqueued()]; a freshly constructed
    node is in no ready queue. *)
Record intrusive_task_base_type : Type := { m_is_enqueued : bool }.

Definition intrusive_task_base_type_ctor : intrusive_task_base_type :=
  {| m_is_enqueued := false |}.

(** Modelled from the spec: [TaskQueueTraits::waiting_queue_type] comes from
    impl/Kokkos_LIFO.hpp, which is not part of the header. It is a singly
    linked chain of waiters whose head is either the chain or a distinguished
    poison value marking the queue consumed. [try_push] links the new node in
    front of the current head and fails when it observes the poison value;
    [consume] swaps in the poison value and then walks and visits the chain
    it captured. *)
Inductive waiting_queue_type : Type :=
| QueueHead (chain : list address)
| QueueConsumed.

Definition waiting_queue_type_ctor : waiting_queue_type := QueueHead [].

Definition try_push (node : address) (q : waiting_queue_type)
  : bool * waiting_queue_type :=
  match q with
  | QueueHead chain => (true, QueueHead (node :: chain))
  | QueueConsumed => (false, QueueConsumed)
  end.

Definition consume {S : Type} (f : address -> S -> S) (q : waiting_queue_type) (s : S)
  : waiting_queue_type * S :=
  match q with
  | QueueHead chain => (QueueConsumed, fold_left (fun acc node => f node acc) chain s)
  | QueueConsumed => (QueueConsumed, s)
  end.

Definition is_consumed (q : waiting_queue_type) : bool :=
  match q with QueueHead _ => false | QueueConsumed => true end.

(** ** TaskNode<TaskQueueTraits> *)

Record TaskNode : Type := {
  pool_allocated_base : PoolAllocatedObjectBase;
  reference_counted_base : ReferenceCountedBase;
  intrusive_task_base : intrusive_task_base_type;
  m_wait_queue : waiting_queue_type;
  m_ready_queue_base : pointer;
  m_task_type : TaskType;
  m_priority : Z
}.

Definition TaskNode_ctor (task_type : TaskType) (priority : TaskPriority)
    (queue_base : pointer) (initial_reference_count allocation_size : Z) : TaskNode :=
  {| pool_allocated_base := PoolAllocatedObjectBase_ctor allocation_size;
     reference_counted_base := ReferenceCountedBase_ctor initial_reference_count;
     intrusive_task_base := intrusive_task_base_type_ctor;
     m_wait_queue := waiting_queue_type_ctor;
     m_ready_queue_base := queue_base;
     m_task_type := task_type;
     m_priority := int16_t priority |}.

(** Field updates of a node; every other field is copied. *)
Definition set_reference_counted_base (rc : ReferenceCountedBase) (this : TaskNode) : TaskNode :=
  {| pool_allocated_base := pool_allocated_base this;
     reference_counted_base := rc;
     intrusive_task_base := intrusive_task_base this;
     m_wait_queue := m_wait_queue this;
     m_ready_queue_base := m_ready_queue_base this;
     m_task_type := m_task_type this;
     m_priority := m_priority this |}.

Definition set_intrusive_task_base (b : intrusive_task_base_type) (this : TaskNode) : TaskNode :=
  {| pool_allocated_base := pool_allocated_base this;
     reference_counted_base := reference_counted_base this;
     intrusive_task_base := b;
     m_wait_queue := m_wait_queue this;
     m_ready_queue_base := m_ready_queue_base this;
     m_task_type := m_task_type this;
     m_priority := m_priority this |}.

Definition set_m_wait_queue (q : waiting_queue_type) (this : TaskNode) : TaskNode :=
  {| pool_allocated_base := pool_allocated_base this;
     reference_counted_base := reference_counted_base this;
     intrusive_task_base := intrusive_task_base this;
     m_wait_queue := q;
     m_ready_queue_base := m_ready_queue_base this;
     m_task_type := m_task_type this;
     m_priority := m_priority this |}.

Definition set_m_priority (p : Z) (this : TaskNode) : TaskNode :=
  {| pool_allocated_base := pool_allocated_base this;
     reference_counted_base := reference_counted_base this;
     intrusive_task_base := intrusive_task_base this;
     m_wait_queue := m_wait_queue this;
     m_ready_queue_base := m_ready_queue_base this;
     m_task_type := m_task_type this;
     m_priority := p |}.

(** Members inherited from the base classes. *)
Definition ref_count (this : TaskNode) : Z :=
  m_ref_count (reference_counted_base this).

Definition is_enqueued (this : TaskNode) : bool :=
  m_is_enqueued (intrusive_task_base this).

Definition TaskNode_increment_reference_count (this : TaskNode) : TaskNode :=
  set_reference_counted_base
    (increment_reference_count (reference_counted_base this)) this.

Definition TaskNode_decrement_and_check_reference_count (this : TaskNode)
  : outcome (bool * TaskNode) :=
  '(reached_zero, rc) ← decrement_and_check_reference_count (reference_counted_base this);
  mret (reached_zero, set_reference_counted_base rc this).

(** Members of TaskNode itself. *)
Definition is_aggregate (this : TaskNode) : bool :=
  TaskType_eqb (m_task_type this) Aggregate.

Definition is_runnable (this : TaskNode) : bool :=
  negb (TaskType_eqb (m_task_type this) Aggregate).

Definition is_single_runnable (this : TaskNode) : bool :=
  TaskType_eqb (m_task_type this) TaskSingle.

Definition is_team_runnable (this : TaskNode) : bool :=
  TaskType_eqb (m_task_type this) TaskTeam.

Definition get_task_type (this : TaskNode) : TaskType := m_task_type this.

(** A reference obtained by a checked downcast: the same address, seen at
    the derived static type. The three overloads of each accessor (on [&],
    [const&] and [&&]) run the same check and cast, so one definition
    stands for all of them. *)
Inductive RunnableTaskBase_ref : Type := RunnableRef (at_address : address).
Inductive AggregateTask_ref : Type := AggregateRef (at_address : address).

Definition as_runnable_task (this_address : address) (this : TaskNode)
  : outcome RunnableTaskBase_ref :=
  KOKKOS_EXPECTS (is_runnable this) ;;
  mret (RunnableRef this_address).

Definition as_aggregate (this_address : address) (this : TaskNode)
  : outcome AggregateTask_ref :=
  KOKKOS_EXPECTS (is_aggregate this) ;;
  mret (AggregateRef this_address).

Definition try_add_waiting (depends_on_this : address) (this : TaskNode)
  : bool * TaskNode :=
  let '(pushed, q) := try_push depends_on_this (m_wait_queue this) in
  (pushed, set_m_wait_queue q this).

Definition consume_wait_queue {S : Type} (f : address -> S -> S) (this : TaskNode) (s : S)
  : outcome (TaskNode * S) :=
  KOKKOS_EXPECTS (negb (is_consumed (m_wait_queue this))) ;;
  let '(q, s') := consume f (m_wait_queue this) s in
  mret (set_m_wait_queue q this, s').

Definition wait_queue_is_consumed (this : TaskNode) : bool :=
  is_consumed (m_wait_queue this).

Definition ready_queue_base_ptr (this : TaskNode) : pointer :=
  m_ready_queue_base this.

Definition set_priority (priority : TaskPriority) (this : TaskNode) : outcome TaskNode :=
  KOKKOS_EXPECTS (negb (is_enqueued this)) ;;
  mret (set_m_priority (int16_t priority) this).

Definition get_priority (this : TaskNode) : TaskPriority := m_priority this.

(** ** RunnableTaskBase<TaskQueueTraits> *)

Record RunnableTaskBase : Type := {
  runnable_base : TaskNode;
  m_apply : pointer;
  m_predecessor : pointer;
  m_is_respawning : bool
}.

Definition RunnableTaskBase_ctor (apply_function_ptr : pointer)
    (task_type : TaskType) (priority : TaskPriority) (queue_base : pointer)
    (initial_reference_count allocation_size : Z) : RunnableTaskBase :=
  {| runnable_base :=
       TaskNode_ctor task_type priority queue_base initial_reference_count allocation_size;
     m_apply := apply_function_ptr;
     m_predecessor := nullptr;
     m_is_respawning := false |}.

Definition set_runnable_base (n : TaskNode) (this : RunnableTaskBase) : RunnableTaskBase :=
  {| runnable_base := n;
     m_apply := m_apply this;
     m_predecessor := m_predecessor this;
     m_is_respawning := m_is_respawning this |}.

Definition set_m_predecessor (p : pointer) (this : RunnableTaskBase) : RunnableTaskBase :=
  {| runnable_base := runnable_base this;
     m_apply := m_apply this;
     m_predecessor := p;
     m_is_respawning := m_is_respawning this |}.

Definition get_respawn_flag (this : RunnableTaskBase) : bool := m_is_respawning this.

(** [set_respawn_flag(bool value = true)]: [None] is the call without an
    argument, which takes the default. *)
Definition set_respawn_flag (value : option bool) (this : RunnableTaskBase)
  : RunnableTaskBase :=
  {| runnable_base := runnable_base this;
     m_apply := m_apply this;
     m_predecessor := m_predecessor this;
     m_is_respawning := default true value |}.

Definition has_predecessor (this : RunnableTaskBase) : bool :=
  negb (is_nullptr (m_predecessor this)).

Definition clear_predecessor (this : RunnableTaskBase) : RunnableTaskBase :=
  set_m_predecessor nullptr this.

Definition get_predecessor (this : RunnableTaskBase) : outcome address :=
  KOKKOS_EXPECTS (negb (is_nullptr (m_predecessor this))) ;;
  match m_predecessor this with
  | Some predecessor => mret predecessor
  | None => Undefined
  end.

(** ** AggregateTask<TaskQueueTraits, SchedulingInfo> *)

(** Modelled from the spec: [ObjectWithVLAEmulation] comes from
    impl/Kokkos_VLAEmulation.hpp, which is not part of the header. It holds
    the number of inline slots, fixed at construction, and the slots
    themselves, each an owning reference to one predecessor or null once
    cleared; [n_vla_entries()] returns the number given at construction. *)
Record ObjectWithVLAEmulation : Type := {
  m_num_entries : Z;
  vla_entries : list pointer
}.

Definition ObjectWithVLAEmulation_ctor (num_entries : Z) : ObjectWithVLAEmulation :=
  {| m_num_entries := num_entries;
     vla_entries := replicate (Z.to_nat num_entries) nullptr |}.

Definition n_vla_entries (this : ObjectWithVLAEmulation) : Z := m_num_entries this.

(** Assignment through [vla_value_at(n)]; a slot outside the array is no
    object. *)
Definition vla_value_at_assign (n : Z) (value : pointer) (this : ObjectWithVLAEmulation)
  : outcome ObjectWithVLAEmulation :=
  if (0 <=? n) && (n <? m_num_entries this)
  then mret {| m_num_entries := m_num_entries this;
               vla_entries := <[Z.to_nat n := value]> (vla_entries this) |}
  else Undefined.

Section Nodes.

(** The scheduling information a queue attaches to a node is a template
    parameter; the header only stores it. *)
Context {SchedulingInfo : Type}.

Record AggregateTask : Type := {
  aggregate_base : TaskNode;
  aggregate_scheduling_info : SchedulingInfo;
  vla_base : ObjectWithVLAEmulation
}.

(** The scheduling information is default-initialised; its initial value is
    passed here as [info]. The trailing arguments are those forwarded to the
    TaskNode constructor after the kind and the priority. *)
Definition AggregateTask_ctor (info : SchedulingInfo) (aggregate_predecessor_count : Z)
    (queue_base : pointer) (initial_reference_count allocation_size : Z) : AggregateTask :=
  {| aggregate_base :=
       TaskNode_ctor Aggregate Regular queue_base initial_reference_count allocation_size;
     aggregate_scheduling_info := info;
     vla_base := ObjectWithVLAEmulation_ctor aggregate_predecessor_count |}.

Definition set_aggregate_base (n : TaskNode) (this : AggregateTask) : AggregateTask :=
  {| aggregate_base := n;
     aggregate_scheduling_info := aggregate_scheduling_info this;
     vla_base := vla_base this |}.

Definition set_vla_base (v : ObjectWithVLAEmulation) (this : AggregateTask) : AggregateTask :=
  {| aggregate_base := aggregate_base this;
     aggregate_scheduling_info := aggregate_scheduling_info this;
     vla_base := v |}.

Definition scheduling_info (this : AggregateTask) : SchedulingInfo :=
  aggregate_scheduling_info this.

Definition scheduling_info_assign (info : SchedulingInfo) (this : AggregateTask)
  : AggregateTask :=
  {| aggregate_base := aggregate_base this;
     aggregate_scheduling_info := info;
     vla_base := vla_base this |}.

Definition dependence_count (this : AggregateTask) : Z := n_vla_entries (vla_base this).

(** ** The store of task nodes *)

(** A live object is a bare TaskNode or one of the two classes derived from
    it; a reference to a TaskNode names the base subobject of any of them. *)
Inductive object : Type :=
| BareNode (n : TaskNode)
| Runnable (r : RunnableTaskBase)
| AggregateNode (a : AggregateTask).

Definition task_node_of (o : object) : TaskNode :=
  match o with
  | BareNode n => n
  | Runnable r => runnable_base r
  | AggregateNode a => aggregate_base a
  end.

Definition set_task_node (n : TaskNode) (o : object) : object :=
  match o with
  | BareNode _ => BareNode n
  | Runnable r => Runnable (set_runnable_base n r)
  | AggregateNode a => AggregateNode (set_aggregate_base n a)
  end.

Definition load (h : gmap address object) (p : address) : outcome object :=
  match h !! p with
  | Some o => Done o
  | None => Undefined
  end.

Definition load_TaskNode (h : gmap address object) (p : address) : outcome TaskNode :=
  o ← load h p; mret (task_node_of o).

Definition load_RunnableTaskBase (h : gmap address object) (p : address)
  : outcome RunnableTaskBase :=
  o ← load h p;
  match o with
  | Runnable r => mret r
  | _ => Undefined
  end.

Definition load_AggregateTask (h : gmap address object) (p : address)
  : outcome AggregateTask :=
  o ← load h p;
  match o with
  | AggregateNode a => mret a
  | _ => Undefined
  end.

Definition store_TaskNode (p : address) (n : TaskNode) (h : gmap address object)
  : outcome (gmap address object) :=
  o ← load h p; mret (<[p := set_task_node n o]> h).

Definition store_RunnableTaskBase (p : address) (r : RunnableTaskBase)
    (h : gmap address object) : outcome (gmap address object) :=
  _ ← load_RunnableTaskBase h p; mret (<[p := Runnable r]> h).

Definition store_AggregateTask (p : address) (a : AggregateTask)
    (h : gmap address object) : outcome (gmap address object) :=
  _ ← load_AggregateTask h p; mret (<[p := AggregateNode a]> h).

(** [RunnableTaskBase::set_predecessor]: the one member of the header that
    writes to two objects, which may be the same one. *)
Definition set_predecessor (this predecessor : address) (h : gmap address object)
  : outcome (gmap address object) :=
  self ← load_RunnableTaskBase h this;
  KOKKOS_EXPECTS (is_nullptr (m_predecessor self)) ;;
  pred ← load_TaskNode h predecessor;
  h1 ← store_TaskNode predecessor (TaskNode_increment_reference_count pred) h;
  self1 ← load_RunnableTaskBase h1 this;
  store_RunnableTaskBase this (set_m_predecessor (Some predecessor) self1) h1.

End Nodes.

Arguments AggregateTask SchedulingInfo : clear implicits.
Arguments object SchedulingInfo : clear implicits.

(** ** Sequences of member calls *)

(** The member functions of the header that write to a node, as calls on the
    object at an address. The visit function given to [consume_wait_queue]
    runs after the queue has been marked consumed, so what it does to the
    store is the calls that follow in the sequence. [ready_queue_link] is
    the ready queue linking or unlinking the node through its intrusive
    base. *)
Inductive member_call {SchedulingInfo : Type} : Type :=
| call_increment_reference_count
| call_decrement_and_check_reference_count
| call_try_add_waiting (depends_on_this : address)
| call_consume_wait_queue
| call_set_priority (priority : TaskPriority)
| call_set_respawn_flag (value : option bool)
| call_clear_predecessor
| call_set_predecessor (predecessor : address)
| call_vla_value_at_assign (n : Z) (value : pointer)
| call_scheduling_info_assign (info : SchedulingInfo)
| ready_queue_link (enqueued : bool).

Arguments member_call SchedulingInfo : clear implicits.

Section Calls.

Context {SchedulingInfo : Type}.

Definition exec (this : address) (c : member_call SchedulingInfo)
    (h : gmap address (object SchedulingInfo))
  : outcome (gmap address (object SchedulingInfo)) :=
  match c with
  | call_increment_reference_count =>
      n ← load_TaskNode h this;
      store_TaskNode this (TaskNode_increment_reference_count n) h
  | call_decrement_and_check_reference_count =>
      n ← load_TaskNode h this;
      '(_, n') ← TaskNode_decrement_and_check_reference_count n;
      store_TaskNode this n' h
  | call_try_add_waiting depends_on_this =>
      n ← load_TaskNode h this;
      store_TaskNode this (snd (try_add_waiting depends_on_this n)) h
  | call_consume_wait_queue =>
      n ← load_TaskNode h this;
      '(n', _) ← consume_wait_queue (fun node visited => node :: visited) n [];
      store_TaskNode this n' h
  | call_set_priority priority =>
      n ← load_TaskNode h this;
      n' ← set_priority priority n;
      store_TaskNode this n' h
  | call_set_respawn_flag value =>
      r ← load_RunnableTaskBase h this;
      store_RunnableTaskBase this (set_respawn_flag value r) h
  | call_clear_predecessor =>
      r ← load_RunnableTaskBase h this;
      store_RunnableTaskBase this (clear_predecessor r) h
  | call_set_predecessor predecessor =>
      set_predecessor this predecessor h
  | call_vla_value_at_assign n value =>
      a ← load_AggregateTask h this;
      v ← vla_value_at_assign n value (vla_base a);
      store_AggregateTask this (set_vla_base v a) h
  | call_scheduling_info_assign info =>
      a ← load_AggregateTask h this;
      store_AggregateTask this (scheduling_info_assign info a) h
  | ready_queue_link enqueued =>
      n ← load_TaskNode h this;
      store_TaskNode this (set_intrusive_task_base {| m_is_enqueued := enqueued |} n) h
  end.

Fixpoint exec_all (calls : list (address * member_call SchedulingInfo))
    (h : gmap address (object SchedulingInfo))
  : outcome (gmap address (object SchedulingInfo)) :=
  match calls with
  | [] => mret h
  | (this, c) :: rest => h' ← exec this c h; exec_all rest h'
  end.

End Calls.

(** ** RunnableTask<TaskQueueTraits, Scheduler, ResultType, FunctorType> *)

(** Modelled from the spec: [member_type] is the execution context of
    TaskQueueSpecialization<Scheduler>, which is not part of the header: a
    single worker or one member of a team, exposing its rank within the team
    and a barrier. *)
Record member_type : Type := {
  m_team_rank : Z;
  m_team_size : Z
}.

Definition team_rank (member : member_type) : Z := m_team_rank member.

(** The thread that runs [apply]: its member handle and, where the active
    execution space is CUDA, its thread index within the block. *)
Inductive active_execution_space : Type :=
| HostSpace
| CudaSpace (threadIdx_x threadIdx_y : Z).

Record thread : Type := {
  space : active_execution_space;
  member : member_type
}.

(** What a thread of the team does that concerns the payload's lifetime. *)
Inductive event : Type :=
| functor_destroyed (by_thread : thread).

Section RunnableTasks.

Context {SchedulingInfo ResultType FunctorType : Type}.

Record TaskResultStorage : Type := { m_value : ResultType }.

Record RunnableTask : Type := {
  task_base : RunnableTaskBase;
  task_scheduling_info : SchedulingInfo;
  functor : FunctorType;
  result_storage : TaskResultStorage
}.

(** The payload's call operator. It receives the member and, unless the
    result type is void, the result slot; being a base subobject of the task
    it can also reach the task's own members, which is how a payload asks
    for a respawn. *)
Variable functor_call : member_type -> RunnableTask -> RunnableTask.

Definition update_scheduling_info (member : member_type) (this : RunnableTask)
  : RunnableTask := this.

Definition apply_functor (member : member_type) (this : RunnableTask) : RunnableTask :=
  let this := update_scheduling_info member this in
  functor_call member this.

Definition only_one_thread (t : thread) : bool :=
  match space t with
  | CudaSpace threadIdx_x threadIdx_y => (0 =? threadIdx_x) && (0 =? threadIdx_y)
  | HostSpace => 0 =? team_rank (member t)
  end.

(** [RunnableTask::apply] as run by one thread. The call of
    [member->team_barrier()] is where the thread waits for the rest of its
    team: [apply] returns the task as this thread leaves it and the rest of
    its body, which resumes on the task as it is once every member has
    reached the barrier. *)
Definition apply (t : thread) (self : RunnableTask)
  : RunnableTask * (RunnableTask -> list event) :=
  let only_one_thread := only_one_thread t in
  let task := apply_functor (member t) self in
  (task,
   fun task =>
     if only_one_thread && negb (get_respawn_flag (task_base task))
     then [functor_destroyed t]
     else []).

(** One execution pass by a team: the threads run the payload in the order
    of the list, all reach the barrier, and each then runs the rest of
    [apply]. A single worker is a team of one. *)
Fixpoint run_to_barrier (team : list thread) (task : RunnableTask)
  : RunnableTask * list (RunnableTask -> list event) :=
  match team with
  | [] => (task, [])
  | t :: rest =>
      let '(task1, resume) := apply t task in
      let '(task2, resumes) := run_to_barrier rest task1 in
      (task2, resume :: resumes)
  end.

Definition team_apply (team : list thread) (task : RunnableTask)
  : RunnableTask * list event :=
  let '(task_at_barrier, resumes) := run_to_barrier team task in
  (task_at_barrier, flat_map (fun resume => resume task_at_barrier) resumes).

End RunnableTasks.

Arguments TaskResultStorage ResultType : clear implicits.
Arguments RunnableTask SchedulingInfo ResultType FunctorType : clear implicits.

(** ** Observations used in the statements *)

(** A run of [try_add_waiting] calls on one node, with the result of each. *)
Fixpoint try_add_waiting_all (waiters : list address) (this : TaskNode)
  : list bool * TaskNode :=
  match waiters with
  | [] => ([], this)
  | w :: rest =>
      let '(pushed, this1) := try_add_waiting w this in
      let '(results, this2) := try_add_waiting_all rest this1 in
      (pushed :: results, this2)
  end.

(** A visit function that records the waiters it is given, in order. *)
Definition record_visit (node : address) (visited : list address) : list address :=
  visited ++ [node].

(** What no member function of the header writes to: the kind and the
    allocation size of a node, the class of the object it is part of, the
    apply function of a runnable and the slot count of an aggregate. *)
Definition same_identity {SchedulingInfo : Type} (o o' : object SchedulingInfo) : Prop :=
  get_task_type (task_node_of o') = get_task_type (task_node_of o) /\
  get_allocation_size (pool_allocated_base (task_node_of o')) =
    get_allocation_size (pool_allocated_base (task_node_of o)) /\
  match o, o' with
  | BareNode _, BareNode _ => True
  | Runnable r, Runnable r' => m_apply r' = m_apply r
  | AggregateNode a, AggregateNode a' => dependence_count a' = dependence_count a
  | _, _ => False
  end.

Definition identities_kept {SchedulingInfo : Type}
    (h h' : gmap address (object SchedulingInfo)) : Prop :=
  forall p o, h !! p = Some o -> exists o', h' !! p = Some o' /\ same_identity o o'.



(** The rank of the member a thread belongs to. *)
Definition rank_of (t : thread) : Z := team_rank (member t).

(** ** RunnableTaskBase::run *)

Section Run.

Context {World : Type}.

(** What function pointers point to: [code f] is the function at address
    [f], if there is one, called with the task and the member and acting on
    the state of the program around the node. *)
Variable code : address -> option (address -> member_type -> World -> outcome World).

Definition run (this_address : address) (this : RunnableTaskBase)
    (member : member_type) (w : World) : outcome World :=
  match m_apply this with
  | Some f =>
      match code f with
      | Some body => body this_address member w
      | None => Undefined
      end
  | None => Undefined
  end.

End Run.

(** ** The effect of one call on one object *)

(** What a call that returns has done to the object at an address [p]: to
    the TaskNode part of the object it is called on, to the derived part of
    that object, and, for [set_predecessor], to the object named as the
    predecessor. *)
Definition node_effect {SchedulingInfo : Type} (c : member_call SchedulingInfo)
    (n : TaskNode) : TaskNode :=
  match c with
  | call_increment_reference_count => TaskNode_increment_reference_count n
  | call_decrement_and_check_reference_count =>
      set_reference_counted_base
        (snd (atomic_fetch_add (reference_counted_base n) (-1))) n
  | call_try_add_waiting depends_on_this => snd (try_add_waiting depends_on_this n)
  | call_consume_wait_queue => set_m_wait_queue QueueConsumed n
  | call_set_priority priority => set_m_priority (int16_t priority) n
  | ready_queue_link enqueued =>
      set_intrusive_task_base {| m_is_enqueued := enqueued |} n
  | _ => n
  end.

Definition callee_effect {SchedulingInfo : Type} (c : member_call SchedulingInfo)
    (o : object SchedulingInfo) : object SchedulingInfo :=
  match c, o with
  | call_set_respawn_flag value, Runnable r => Runnable (set_respawn_flag value r)
  | call_clear_predecessor, Runnable r => Runnable (clear_predecessor r)
  | call_set_predecessor predecessor, Runnable r =>
      Runnable (set_m_predecessor (Some predecessor) r)
  | call_vla_value_at_assign n value, AggregateNode a =>
      AggregateNode
        (set_vla_base
           {| m_num_entries := m_num_entries (vla_base a);
              vla_entries := <[Z.to_nat n := value]> (vla_entries (vla_base a)) |} a)
  | call_scheduling_info_assign info, AggregateNode a =>
      AggregateNode (scheduling_info_assign info a)
  | _, _ => set_task_node (node_effect c (task_node_of o)) o
  end.

Definition predecessor_effect {SchedulingInfo : Type} (p : address)
    (c : member_call SchedulingInfo) (o : object SchedulingInfo)
  : object SchedulingInfo :=
  match c with
  | call_set_predecessor predecessor =>
      if decide (predecessor = p)
      then set_task_node (TaskNode_increment_reference_count (task_node_of o)) o
      else o
  | _ => o
  end.

Definition effect_on {SchedulingInfo : Type} (p : address)
    (call : address * member_call SchedulingInfo) (o : object SchedulingInfo)
  : object SchedulingInfo :=
  let o1 := predecessor_effect p (snd call) o in
  if decide (fst call = p) then callee_effect (snd call) o1 else o1.

(** The references a call adds to or takes from the node at [p], and their
    sum over a sequence of calls. *)
Definition reference_delta {SchedulingInfo : Type} (p : address)
    (call : address * member_call SchedulingInfo) : Z :=
  match call with
  | (this, call_increment_reference_count) => if decide (this = p) then 1 else 0
  | (this, call_decrement_and_check_reference_count) =>
      if decide (this = p) then -1 else 0
  | (_, call_set_predecessor predecessor) => if decide (predecessor = p) then 1 else 0
  | _ => 0
  end.

Definition net_references {SchedulingInfo : Type} (p : address)
    (calls : list (address * member_call SchedulingInfo)) : Z :=
  fold_right (fun call sum => reference_delta p call + sum) 0 calls.

(** The value a field of the node at [p] has after a sequence of calls, when
    only the calls picked out by [written] write to it: the last value
    written, or the one it had. *)
Definition last_written {SchedulingInfo A : Type}
    (written : address * member_call SchedulingInfo -> option A)
    (calls : list (address * member_call SchedulingInfo)) (initial : A) : A :=
  fold_left (fun value call => default value (written call)) calls initial.

Definition priority_written {SchedulingInfo : Type} (p : address)
    (call : address * member_call SchedulingInfo) : option Z :=
  match call with
  | (this, call_set_priority priority) =>
      if decide (this = p) then Some (int16_t priority) else None
  | _ => None
  end.

Definition respawn_flag_written {SchedulingInfo : Type} (p : address)
    (call : address * member_call SchedulingInfo) : option bool :=
  match call with
  | (this, call_set_respawn_flag value) =>
      if decide (this = p) then Some (default true value) else None
  | _ => None
  end.

Definition predecessor_written {SchedulingInfo : Type} (p : address)
    (call : address * member_call SchedulingInfo) : option pointer :=
  match call with
  | (this, call_set_predecessor predecessor) =>
      if decide (this = p) then Some (Some predecessor) else None
  | (this, call_clear_predecessor) =>
      if decide (this = p) then Some nullptr else None
  | _ => None
  end.

Definition scheduling_info_written {SchedulingInfo : Type} (p : address)
    (call : address * member_call SchedulingInfo) : option SchedulingInfo :=
  match call with
  | (this, call_scheduling_info_assign info) =>
      if decide (this = p) then Some info else None
  | _ => None
  end.

(** A field of a derived class, seen on an object of that class. *)
Definition respawn_flag_view {SchedulingInfo : Type} (o : object SchedulingInfo)
  : option bool :=
  match o with Runnable r => Some (get_respawn_flag r) | _ => None end.

Definition scheduling_info_view {SchedulingInfo : Type} (o : object SchedulingInfo)
  : option SchedulingInfo :=
  match o with AggregateNode a => Some (scheduling_info a) | _ => None end.

Definition predecessor_view {SchedulingInfo : Type} (o : object SchedulingInfo)
  : option pointer :=
  match o with Runnable r => Some (m_predecessor r) | _ => None end.

(** Whether a call is a [consume_wait_queue] on the node at [p]. *)
Definition consumes_wait_queue_of {SchedulingInfo : Type} (p : address)
    (call : address * member_call SchedulingInfo) : bool :=
  match call with
  | (this, call_consume_wait_queue) => bool_decide (this = p)
  | _ => false
  end.

(** The key by which [apply] picks its one thread: the rank of the member
    on the host, the thread index under CUDA. *)
Definition designation_key (t : thread) : Z * Z :=
  match space t with
  | HostSpace => (team_rank (member t), 0)
  | CudaSpace threadIdx_x threadIdx_y => (threadIdx_x, threadIdx_y)
  end.

(** [k] decrements in a row, with the result of each. *)
Fixpoint decrement_times (k : nat) (this : ReferenceCountedBase)
  : outcome (list bool * ReferenceCountedBase) :=
  match k with
  | O => mret ([], this)
  | S k' =>
      '(reached_zero, this1) ← decrement_and_check_reference_count this;
      '(results, this2) ← decrement_times k' this1;
      mret (reached_zero :: results, this2)
  end.

(** ** Sample nodes, stores and teams *)

Definition sample_runnable : RunnableTaskBase :=
  RunnableTaskBase_ctor (Some 7%positive) TaskSingle Regular nullptr 2 128.

Definition sample_aggregate : AggregateTask unit :=
  AggregateTask_ctor tt 3 nullptr 1 160.

(** A runnable at address 1 and an aggregate at address 2. *)
Definition sample_store : gmap address (object unit) :=
  <[1%positive := Runnable sample_runnable]>
    (<[2%positive := AggregateNode sample_aggregate]> ∅).

(** The same store once the runnable has the aggregate as its predecessor. *)
Definition sample_store_linked : gmap address (object unit) :=
  match set_predecessor 1%positive 2%positive sample_store with
  | Done h => h
  | _ => ∅
  end.

Definition sample_calls : list (address * member_call unit) :=
  [ (1%positive, call_set_priority High);
    (2%positive, call_try_add_waiting 1%positive);
    (1%positive, call_set_predecessor 2%positive);
    (1%positive, call_set_respawn_flag None);
    (2%positive, call_vla_value_at_assign 0 (Some 1%positive));
    (2%positive, call_consume_wait_queue);
    (1%positive, call_clear_predecessor);
    (2%positive, call_decrement_and_check_reference_count) ].

Definition sample_store_after_calls : gmap address (object unit) :=
  match exec_all sample_calls sample_store with
  | Done h => h
  | _ => ∅
  end.

(** Calls on the linked store that leave the link alone. *)
Definition sample_calls_linked : list (address * member_call unit) :=
  [ (1%positive, call_set_priority Low);
    (2%positive, call_increment_reference_count);
    (1%positive, call_set_respawn_flag (Some false));
    (2%positive, call_scheduling_info_assign tt) ].

Definition sample_store_after_linked_calls : gmap address (object unit) :=
  match exec_all sample_calls_linked sample_store_linked with
  | Done h => h
  | _ => ∅
  end.

(** A table of functions with one entry, at the address the sample runnable
    was constructed with: it counts its calls. *)
Definition sample_code (f : address)
  : option (address -> member_type -> nat -> outcome nat) :=
  if decide (f = 7%positive) then Some (fun _ _ count => Done (S count)) else None.

Definition host_thread (rank size : Z) : thread :=
  {| space := HostSpace; member := {| m_team_rank := rank; m_team_size := size |} |}.

Definition sample_team : list thread :=
  [host_thread 1 3; host_thread 0 3; host_thread 2 3].

Definition sample_task : RunnableTask unit unit unit :=
  {| task_base := sample_runnable;
     task_scheduling_info := tt;
     functor := tt;
     result_storage := {| m_value := tt |} |}.

(** A payload that asks for a respawn when [respawn] is set, from the member
    of rank 1. *)
Definition sample_functor_call (respawn : bool) (m : member_type)
    (task : RunnableTask unit unit unit) : RunnableTask unit unit unit :=
  if respawn && (team_rank m =? 1)
  then {| task_base := set_respawn_flag None (task_base task);
          task_scheduling_info := task_scheduling_info task;
          functor := functor task;
          result_storage := result_storage task |}
  else task.

(** * Properties *)

(** ** Arithmetic of the counters *)

Lemma int32_t_in_range (z : Z) : in_range 32 z -> int32_t z = z.
Proof.
  unfold in_range, int32_t, wrap. simpl Z.sub. intros Hz.
  rewrite Z.mod_small; lia.
Qed.

Lemma int16_t_in_range (z : Z) : in_range 16 z -> int16_t z = z.
Proof.
  unfold in_range, int16_t, wrap. simpl Z.sub. intros Hz.
  rewrite Z.mod_small; lia.
Qed.

Lemma int16_t_enumerator (p : TaskPriority) : is_enumerator p -> int16_t p = p.
Proof.
  intros [-> | [-> | ->]]; reflexivity.
Qed.

Lemma TaskType_eqb_eq (a b : TaskType) : TaskType_eqb a b = true <-> a = b.
Proof.
  destruct a, b; unfold TaskType_eqb; simpl; split; intros H;
    first [reflexivity | discriminate].
Qed.

(** ** Reference counting *)

Lemma decrement_positive (this : ReferenceCountedBase) :
  0 < m_ref_count this ->
  decrement_and_check_reference_count this =
    Done (m_ref_count this =? 1, {| m_ref_count := int32_t (m_ref_count this - 1) |}).
Proof.
  intros Hpos. unfold decrement_and_check_reference_count, atomic_fetch_add.
  assert (Hlt : (0 <? m_ref_count this) = true) by (apply Z.ltb_lt; lia).
  rewrite Hlt. reflexivity.
Qed.

Lemma decrement_nonpositive (this : ReferenceCountedBase) :
  m_ref_count this <= 0 ->
  decrement_and_check_reference_count this = Aborted.
Proof.
  intros Hle. unfold decrement_and_check_reference_count, atomic_fetch_add.
  assert (Hlt : (0 <? m_ref_count this) = false) by (apply Z.ltb_ge; lia).
  rewrite Hlt. reflexivity.
Qed.

(** C1. [decrement_and_check_reference_count] aborts on a count that is zero
    or negative; on a positive count it returns and stores the count less
    one; it returns true exactly when the count was 1 and is 0 afterwards.
    A runnable constructed with an initial count of 2 reports false on the
    first decrement (count 1) and true on the second (count 0). *)
Theorem decrement_and_check_reference_count_reaches_zero
    (this : ReferenceCountedBase) :
  (m_ref_count this <= 0 -> decrement_and_check_reference_count this = Aborted) /\
  (0 < m_ref_count this ->
     exists this',
       decrement_and_check_reference_count this = Done (m_ref_count this =? 1, this') /\
       (in_range 32 (m_ref_count this) -> m_ref_count this' = m_ref_count this - 1)) /\
  (forall (reached_zero : bool) (this' : ReferenceCountedBase),
     decrement_and_check_reference_count this = Done (reached_zero, this') ->
     0 < m_ref_count this /\
     (reached_zero = true <-> m_ref_count this = 1 /\ m_ref_count this' = 0)) /\
  (forall apply_function_ptr task_type priority queue_base allocation_size,
     let task := RunnableTaskBase_ctor apply_function_ptr task_type priority
                   queue_base 2 allocation_size in
     exists once twice,
       TaskNode_decrement_and_check_reference_count (runnable_base task)
         = Done (false, once) /\
       ref_count once = 1 /\
       TaskNode_decrement_and_check_reference_count once = Done (true, twice) /\
       ref_count twice = 0 /\
       TaskNode_decrement_and_check_reference_count twice = Aborted).
Proof.
  split; [apply decrement_nonpositive |].
  split.
  { intros Hpos. eexists. split; [apply decrement_positive; exact Hpos |].
    intros Hr. simpl. apply int32_t_in_range. unfold in_range in *. simpl Z.sub in *. lia. }
  split.
  { intros b this' Hrun.
    destruct (Z_lt_le_dec 0 (m_ref_count this)) as [Hpos | Hle].
    - rewrite (decrement_positive this Hpos) in Hrun.
      injection Hrun as Hb Hthis. split; [exact Hpos |].
      subst b this'. simpl. split.
      + intros H1. apply Z.eqb_eq in H1. split; [exact H1 |]. rewrite H1. reflexivity.
      + intros [H1 _]. apply Z.eqb_eq. exact H1.
    - rewrite (decrement_nonpositive this Hle) in Hrun. discriminate. }
  intros f ty pr q size task. subst task.
  eexists. eexists. repeat split; reflexivity.
Qed.

(** ** Classification and downcasts *)

(** C5. [as_runnable_task] returns the reference exactly when [is_runnable]
    holds and aborts otherwise; [as_aggregate] likewise with [is_aggregate]. *)
Theorem checked_downcast_iff_kind_matches (this_address : address) (this : TaskNode) :
  (is_runnable this = true <->
     as_runnable_task this_address this = Done (RunnableRef this_address)) /\
  (is_runnable this = false <-> as_runnable_task this_address this = Aborted) /\
  (is_aggregate this = true <->
     as_aggregate this_address this = Done (AggregateRef this_address)) /\
  (is_aggregate this = false <-> as_aggregate this_address this = Aborted) /\
  is_done (as_runnable_task this_address this) = is_runnable this /\
  is_done (as_aggregate this_address this) = is_aggregate this.
Proof.
  unfold as_runnable_task, as_aggregate.
  destruct (is_runnable this), (is_aggregate this); simpl;
    repeat split; intros; first [reflexivity | discriminate].
Qed.

(** ** Priority *)

(** C8. [set_priority] aborts on a node that is enqueued in a ready queue;
    on a node that is not, it returns and a following [get_priority] gives
    the priority that was set. *)
Theorem set_priority_requires_not_enqueued (priority : TaskPriority) (this : TaskNode) :
  (is_enqueued this = true -> set_priority priority this = Aborted) /\
  (is_enqueued this = false ->
     exists this',
       set_priority priority this = Done this' /\
       (is_enumerator priority -> get_priority this' = priority) /\
       (in_range 16 priority -> get_priority this' = priority) /\
       get_task_type this' = get_task_type this /\
       ref_count this' = ref_count this /\
       m_wait_queue this' = m_wait_queue this /\
       is_enqueued this' = false).
Proof.
  unfold set_priority. split; intros Henq; rewrite Henq; simpl.
  - reflexivity.
  - eexists. split; [reflexivity |]. simpl.
    repeat split.
    + apply int16_t_enumerator.
    + apply int16_t_in_range.
    + exact Henq.
Qed.

(** ** Construction of a runnable *)

(** C10. A freshly constructed RunnableTaskBase has its respawn flag false
    and no predecessor; [set_respawn_flag()] without an argument sets the
    flag. *)
Theorem RunnableTaskBase_ctor_initial_state
    (apply_function_ptr : pointer) (task_type : TaskType) (priority : TaskPriority)
    (queue_base : pointer) (initial_reference_count allocation_size : Z) :
  let task := RunnableTaskBase_ctor apply_function_ptr task_type priority
                queue_base initial_reference_count allocation_size in
  get_respawn_flag task = false /\
  has_predecessor task = false /\
  get_respawn_flag (set_respawn_flag None task) = true /\
  (forall this : RunnableTaskBase,
     get_respawn_flag (set_respawn_flag None this) = true /\
     (forall value, get_respawn_flag (set_respawn_flag (Some value) this) = value) /\
     has_predecessor (set_respawn_flag None this) = has_predecessor this).
Proof.
  simpl. repeat split.
Qed.

(** ** The wait queue *)

Lemma try_add_waiting_open (w : address) (chain : list address) (this : TaskNode) :
  m_wait_queue this = QueueHead chain ->
  try_add_waiting w this = (true, set_m_wait_queue (QueueHead (w :: chain)) this).
Proof.
  intros Hq. unfold try_add_waiting. rewrite Hq. reflexivity.
Qed.

Lemma try_add_waiting_consumed (w : address) (this : TaskNode) :
  m_wait_queue this = QueueConsumed ->
  try_add_waiting w this = (false, this).
Proof.
  intros Hq. unfold try_add_waiting. rewrite Hq. simpl.
  destruct this; simpl in *; subst; reflexivity.
Qed.

Lemma try_add_waiting_all_open (waiters : list address) :
  forall (chain : list address) (this : TaskNode),
    m_wait_queue this = QueueHead chain ->
    try_add_waiting_all waiters this =
      (repeat true (length waiters),
       set_m_wait_queue (QueueHead (rev waiters ++ chain)) this).
Proof.
  induction waiters as [| w rest IH]; intros chain this Hq.
  - simpl. destruct this; simpl in *; subst; reflexivity.
  - cbn [try_add_waiting_all]. rewrite (try_add_waiting_open w chain this Hq).
    rewrite (IH (w :: chain)) by reflexivity.
    cbn [length repeat rev]. rewrite <- app_assoc. reflexivity.
Qed.

Lemma try_add_waiting_all_consumed (waiters : list address) (this : TaskNode) :
  m_wait_queue this = QueueConsumed ->
  try_add_waiting_all waiters this = (repeat false (length waiters), this).
Proof.
  intros Hq. induction waiters as [| w rest IH].
  - reflexivity.
  - cbn [try_add_waiting_all]. rewrite (try_add_waiting_consumed w this Hq).
    rewrite IH. reflexivity.
Qed.

Lemma record_visit_fold (chain visited : list address) :
  fold_left (fun acc node => record_visit node acc) chain visited = visited ++ chain.
Proof.
  revert visited. induction chain as [| n chain IH]; intros visited; simpl.
  - symmetry. apply app_nil_r.
  - rewrite IH. unfold record_visit. rewrite <- app_assoc. reflexivity.
Qed.

Lemma consume_wait_queue_open {S : Type} (f : address -> S -> S)
    (chain : list address) (this : TaskNode) (s : S) :
  m_wait_queue this = QueueHead chain ->
  consume_wait_queue f this s =
    Done (set_m_wait_queue QueueConsumed this,
          fold_left (fun acc node => f node acc) chain s).
Proof.
  intros Hq. unfold consume_wait_queue. rewrite Hq. reflexivity.
Qed.

(** C2. On a node whose wait queue is open, every [try_add_waiting]
    succeeds; [consume_wait_queue] then returns, having called the visit
    function on the chain of waiters, each once per successful add (exactly
    once for waiters that are pairwise distinct); afterwards
    [wait_queue_is_consumed] is true and every [try_add_waiting] returns
    false and leaves the node as it is, a result and not an abort. *)
Theorem consume_wait_queue_visits_each_waiter_once
    (this : TaskNode) (before waiters : list address) :
  m_wait_queue this = QueueHead before ->
  exists this1 this2 visited,
    try_add_waiting_all waiters this = (repeat true (length waiters), this1) /\
    consume_wait_queue record_visit this1 [] = Done (this2, visited) /\
    (forall (S : Type) (f : address -> S -> S) (s : S),
       consume_wait_queue f this1 s =
         Done (this2, fold_left (fun acc node => f node acc) visited s)) /\
    Permutation visited (waiters ++ before) /\
    (forall w, count_occ Pos.eq_dec visited w
               = (count_occ Pos.eq_dec waiters w + count_occ Pos.eq_dec before w)%nat) /\
    (List.NoDup (waiters ++ before) ->
       forall w, In w waiters -> count_occ Pos.eq_dec visited w = 1%nat) /\
    wait_queue_is_consumed this2 = true /\
    (forall w, try_add_waiting w this2 = (false, this2)) /\
    (forall later, try_add_waiting_all later this2
                   = (repeat false (length later), this2)) /\
    get_task_type this2 = get_task_type this /\
    ref_count this2 = ref_count this.
Proof.
  intros Hq.
  exists (set_m_wait_queue (QueueHead (rev waiters ++ before)) this).
  exists (set_m_wait_queue QueueConsumed this).
  exists (rev waiters ++ before).
  assert (Hperm : Permutation (rev waiters ++ before) (waiters ++ before)).
  { apply Permutation_app_tail. symmetry. apply Permutation_rev. }
  split; [apply try_add_waiting_all_open; exact Hq |].
  split.
  { rewrite (consume_wait_queue_open record_visit (rev waiters ++ before)) by reflexivity.
    rewrite record_visit_fold. reflexivity. }
  split.
  { intros S f s.
    rewrite (consume_wait_queue_open f (rev waiters ++ before)) by reflexivity.
    reflexivity. }
  split; [exact Hperm |].
  split.
  { intros w. rewrite (Permutation_count_occ Pos.eq_dec) in Hperm.
    rewrite Hperm. apply count_occ_app. }
  split.
  { intros Hnodup w Hin.
    rewrite (Permutation_count_occ Pos.eq_dec) in Hperm. rewrite Hperm.
    rewrite (NoDup_count_occ' Pos.eq_dec) in Hnodup.
    apply Hnodup. apply in_or_app. left. exact Hin. }
  split; [reflexivity |].
  split; [intros w; apply try_add_waiting_consumed; reflexivity |].
  split; [intros later; apply try_add_waiting_all_consumed; reflexivity |].
  split; reflexivity.
Qed.

(** ** The store: what member calls leave alone *)

Lemma bind_Done {A B : Type} (m : outcome A) (k : A -> outcome B) (b : B) :
  m ≫= k = Done b -> exists a, m = Done a /\ k a = Done b.
Proof.
  destruct m as [a | |]; simpl; intros H; try discriminate.
  exists a. split; [reflexivity | exact H].
Qed.

Ltac invert_bind H :=
  let a := fresh "a" in
  let Ha := fresh "Ha" in
  apply bind_Done in H; destruct H as (a & Ha & H).

Section StoreFacts.

Context {SchedulingInfo : Type}.
Implicit Types (h : gmap address (object SchedulingInfo)) (o : object SchedulingInfo).

Lemma load_TaskNode_Done h p n :
  load_TaskNode h p = Done n <-> exists o, h !! p = Some o /\ task_node_of o = n.
Proof.
  unfold load_TaskNode, load. destruct (h !! p) as [o |]; simpl; split.
  - intros H. exists o. split; [reflexivity |]. injection H as H. exact H.
  - intros (o' & Ho & Hn). injection Ho as <-. rewrite Hn. reflexivity.
  - discriminate.
  - intros (o' & Ho & _). discriminate.
Qed.

Lemma load_RunnableTaskBase_Done h p r :
  load_RunnableTaskBase h p = Done r <-> h !! p = Some (Runnable r).
Proof.
  unfold load_RunnableTaskBase, load.
  destruct (h !! p) as [[n | r' | a] |]; cbv [mbind outcome_bind mret outcome_ret];
    split; intros H;
    try discriminate; congruence.
Qed.

Lemma load_AggregateTask_Done h p a :
  load_AggregateTask h p = Done a <-> h !! p = Some (AggregateNode a).
Proof.
  unfold load_AggregateTask, load.
  destruct (h !! p) as [[n | r | a'] |]; cbv [mbind outcome_bind mret outcome_ret];
    split; intros H;
    try discriminate; congruence.
Qed.

Lemma same_identity_refl o : same_identity o o.
Proof.
  unfold same_identity. destruct o; repeat split.
Qed.

Lemma same_identity_trans o1 o2 o3 :
  same_identity o1 o2 -> same_identity o2 o3 -> same_identity o1 o3.
Proof.
  unfold same_identity. intros (Hk & Hs & Hc) (Hk' & Hs' & Hc').
  split; [congruence |]. split; [congruence |].
  destruct o1, o2, o3; simpl in *; try contradiction; try exact I; congruence.
Qed.

Lemma same_identity_set_task_node (n : TaskNode) o :
  get_task_type n = get_task_type (task_node_of o) ->
  get_allocation_size (pool_allocated_base n) =
    get_allocation_size (pool_allocated_base (task_node_of o)) ->
  same_identity o (set_task_node n o).
Proof.
  intros Hk Hs. unfold same_identity. destruct o; simpl in *; repeat split; assumption.
Qed.

Lemma identities_kept_refl h : identities_kept h h.
Proof.
  intros p o Ho. exists o. split; [exact Ho | apply same_identity_refl].
Qed.

Lemma identities_kept_trans h1 h2 h3 :
  identities_kept h1 h2 -> identities_kept h2 h3 -> identities_kept h1 h3.
Proof.
  intros H12 H23 p o Ho.
  destruct (H12 p o Ho) as (o2 & Ho2 & Hs2).
  destruct (H23 p o2 Ho2) as (o3 & Ho3 & Hs3).
  exists o3. split; [exact Ho3 | exact (same_identity_trans _ _ _ Hs2 Hs3)].
Qed.

Lemma identities_kept_insert h p o o' :
  h !! p = Some o -> same_identity o o' -> identities_kept h (<[p := o']> h).
Proof.
  intros Ho Hs q oq Hq. destruct (decide (p = q)) as [-> | Hne].
  - rewrite lookup_insert_eq. exists o'. split; [reflexivity |]. congruence.
  - rewrite lookup_insert_ne by exact Hne. exists oq.
    split; [exact Hq | apply same_identity_refl].
Qed.

Lemma store_TaskNode_keeps h h' p (n n' : TaskNode) :
  load_TaskNode h p = Done n ->
  get_task_type n' = get_task_type n ->
  get_allocation_size (pool_allocated_base n') =
    get_allocation_size (pool_allocated_base n) ->
  store_TaskNode p n' h = Done h' ->
  identities_kept h h'.
Proof.
  intros Hload Hk Hs Hstore. apply load_TaskNode_Done in Hload as (o & Ho & <-).
  unfold store_TaskNode, load in Hstore. rewrite Ho in Hstore. simpl in Hstore.
  injection Hstore as <-.
  apply (identities_kept_insert h p o); [exact Ho |].
  apply same_identity_set_task_node; assumption.
Qed.

Lemma store_RunnableTaskBase_keeps h h' p (r r' : RunnableTaskBase) :
  load_RunnableTaskBase h p = Done r ->
  get_task_type (runnable_base r') = get_task_type (runnable_base r) ->
  get_allocation_size (pool_allocated_base (runnable_base r')) =
    get_allocation_size (pool_allocated_base (runnable_base r)) ->
  m_apply r' = m_apply r ->
  store_RunnableTaskBase p r' h = Done h' ->
  identities_kept h h'.
Proof.
  intros Hload Hk Hs Ha Hstore. unfold store_RunnableTaskBase in Hstore.
  rewrite Hload in Hstore. simpl in Hstore. injection Hstore as <-.
  apply load_RunnableTaskBase_Done in Hload.
  apply (identities_kept_insert h p (Runnable r)); [exact Hload |].
  unfold same_identity. simpl. repeat split; assumption.
Qed.

Lemma store_AggregateTask_keeps h h' p (a a' : AggregateTask SchedulingInfo) :
  load_AggregateTask h p = Done a ->
  get_task_type (aggregate_base a') = get_task_type (aggregate_base a) ->
  get_allocation_size (pool_allocated_base (aggregate_base a')) =
    get_allocation_size (pool_allocated_base (aggregate_base a)) ->
  dependence_count a' = dependence_count a ->
  store_AggregateTask p a' h = Done h' ->
  identities_kept h h'.
Proof.
  intros Hload Hk Hs Hd Hstore. unfold store_AggregateTask in Hstore.
  rewrite Hload in Hstore. simpl in Hstore. injection Hstore as <-.
  apply load_AggregateTask_Done in Hload.
  apply (identities_kept_insert h p (AggregateNode a)); [exact Hload |].
  unfold same_identity. simpl. repeat split; assumption.
Qed.

Lemma set_predecessor_keeps h h' (this predecessor : address) :
  set_predecessor this predecessor h = Done h' -> identities_kept h h'.
Proof.
  unfold set_predecessor. intros H.
  invert_bind H. invert_bind H. invert_bind H. invert_bind H. invert_bind H.
  eapply identities_kept_trans.
  - eapply store_TaskNode_keeps; [eassumption | | | eassumption]; reflexivity.
  - eapply store_RunnableTaskBase_keeps; [eassumption | | | | eassumption]; reflexivity.
Qed.

Lemma exec_keeps h h' (this : address) (c : member_call SchedulingInfo) :
  exec this c h = Done h' -> identities_kept h h'.
Proof.
  destruct c; cbn [exec]; intros H.
  - invert_bind H.
    eapply store_TaskNode_keeps; [eassumption | | | eassumption]; reflexivity.
  - invert_bind H. invert_bind H. destruct a0 as [reached_zero n'].
    unfold TaskNode_decrement_and_check_reference_count in Ha0.
    invert_bind Ha0. destruct a0 as [b rc]. injection Ha0 as _ <-.
    eapply store_TaskNode_keeps; [eassumption | | | eassumption]; reflexivity.
  - invert_bind H.
    eapply store_TaskNode_keeps; [eassumption | | | eassumption];
      unfold try_add_waiting; destruct (try_push _ _); reflexivity.
  - invert_bind H. invert_bind H. destruct a0 as [n' visited].
    unfold consume_wait_queue in Ha0. invert_bind Ha0.
    destruct (consume _ _ _) as [q s'] in Ha0. injection Ha0 as <- _.
    eapply store_TaskNode_keeps; [eassumption | | | eassumption]; reflexivity.
  - invert_bind H. invert_bind H.
    unfold set_priority in Ha0. invert_bind Ha0. injection Ha0 as <-.
    eapply store_TaskNode_keeps; [eassumption | | | eassumption]; reflexivity.
  - invert_bind H.
    eapply store_RunnableTaskBase_keeps; [eassumption | | | | eassumption]; reflexivity.
  - invert_bind H.
    eapply store_RunnableTaskBase_keeps; [eassumption | | | | eassumption]; reflexivity.
  - eapply set_predecessor_keeps; eassumption.
  - invert_bind H. invert_bind H.
    unfold vla_value_at_assign in Ha0.
    destruct (_ && _) in Ha0; [| discriminate]. injection Ha0 as <-.
    eapply store_AggregateTask_keeps; [eassumption | | | | eassumption]; reflexivity.
  - invert_bind H.
    eapply store_AggregateTask_keeps; [eassumption | | | | eassumption]; reflexivity.
  - invert_bind H.
    eapply store_TaskNode_keeps; [eassumption | | | eassumption]; reflexivity.
Qed.

Lemma exec_all_keeps (calls : list (address * member_call SchedulingInfo)) :
  forall h h', exec_all calls h = Done h' -> identities_kept h h'.
Proof.
  induction calls as [| [this c] rest IH]; intros h h' H.
  - injection H as <-. apply identities_kept_refl.
  - cbn [exec_all] in H. invert_bind H.
    eapply identities_kept_trans; [eapply exec_keeps; eassumption | apply IH; exact H].
Qed.

End StoreFacts.

(** ** Kind and slot count under sequences of calls *)

Lemma identities_kept_TaskNode {SchedulingInfo : Type}
    (h h' : gmap address (object SchedulingInfo)) (p : address) (this : TaskNode) :
  identities_kept h h' ->
  load_TaskNode h p = Done this ->
  exists this', load_TaskNode h' p = Done this' /\
                get_task_type this' = get_task_type this /\
                get_allocation_size (pool_allocated_base this') =
                  get_allocation_size (pool_allocated_base this).
Proof.
  intros Hkept Hload. apply load_TaskNode_Done in Hload as (o & Ho & <-).
  destruct (Hkept p o Ho) as (o' & Ho' & Hk & Hs & _).
  exists (task_node_of o'). split; [| split; assumption].
  apply load_TaskNode_Done. exists o'. split; [exact Ho' | reflexivity].
Qed.

(** C6. The kind given to the constructor is the kind of the node, and a
    sequence of member calls on the nodes of the store that runs to its end
    leaves the kind of every node as it was, and with it the four
    classification queries. The queries are read off the kind:
    [is_aggregate] is "the kind is Aggregate", [is_runnable] its negation,
    [is_single_runnable] "the kind is TaskSingle" and [is_team_runnable]
    "the kind is TaskTeam". *)
Theorem task_kind_is_fixed_at_construction {SchedulingInfo : Type}
    (calls : list (address * member_call SchedulingInfo))
    (h h' : gmap address (object SchedulingInfo)) (p : address) (this : TaskNode) :
  load_TaskNode h p = Done this ->
  exec_all calls h = Done h' ->
  (exists this',
     load_TaskNode h' p = Done this' /\
     get_task_type this' = get_task_type this /\
     is_aggregate this' = is_aggregate this /\
     is_runnable this' = is_runnable this /\
     is_single_runnable this' = is_single_runnable this /\
     is_team_runnable this' = is_team_runnable this) /\
  (forall task_type priority queue_base initial_reference_count allocation_size,
     get_task_type (TaskNode_ctor task_type priority queue_base
                      initial_reference_count allocation_size) = task_type) /\
  (forall n : TaskNode,
     (is_aggregate n = true <-> get_task_type n = Aggregate) /\
     (is_runnable n = true <-> get_task_type n <> Aggregate) /\
     is_runnable n = negb (is_aggregate n) /\
     (is_single_runnable n = true <-> get_task_type n = TaskSingle) /\
     (is_team_runnable n = true <-> get_task_type n = TaskTeam)).
Proof.
  intros Hload Hrun. split; [| split].
  - destruct (identities_kept_TaskNode h h' p this (exec_all_keeps calls h h' Hrun) Hload)
      as (this' & Hload' & Hk & _).
    exists this'. split; [exact Hload' |]. split; [exact Hk |].
    unfold get_task_type in Hk.
    unfold is_aggregate, is_runnable, is_single_runnable, is_team_runnable.
    rewrite Hk. repeat split.
  - reflexivity.
  - intros n. unfold is_aggregate, is_runnable, is_single_runnable, is_team_runnable,
      get_task_type.
    split; [apply TaskType_eqb_eq |].
    split.
    { rewrite negb_true_iff, <- not_true_iff_false. rewrite TaskType_eqb_eq. reflexivity. }
    split; [reflexivity |].
    split; apply TaskType_eqb_eq.
Qed.

(** ** The predecessor link *)

Section Predecessor.

Context {SchedulingInfo : Type}.
Implicit Types (h : gmap address (object SchedulingInfo)) (o : object SchedulingInfo).

Lemma load_RunnableTaskBase_eq h p r :
  h !! p = Some (Runnable r) -> load_RunnableTaskBase h p = Done r.
Proof. apply load_RunnableTaskBase_Done. Qed.

Lemma load_TaskNode_eq h p o :
  h !! p = Some o -> load_TaskNode h p = Done (task_node_of o).
Proof.
  intros Ho. apply load_TaskNode_Done. exists o. split; [exact Ho | reflexivity].
Qed.

Lemma store_TaskNode_eq h p o (n : TaskNode) :
  h !! p = Some o -> store_TaskNode p n h = Done (<[p := set_task_node n o]> h).
Proof.
  intros Ho. unfold store_TaskNode, load. rewrite Ho. reflexivity.
Qed.

Lemma store_RunnableTaskBase_eq h p (r r' : RunnableTaskBase) :
  h !! p = Some (Runnable r) ->
  store_RunnableTaskBase p r' h = Done (<[p := Runnable r']> h).
Proof.
  intros Hr. unfold store_RunnableTaskBase.
  rewrite (load_RunnableTaskBase_eq h p r Hr). reflexivity.
Qed.

Lemma set_predecessor_aborts_when_set h (this predecessor : address)
    (self : RunnableTaskBase) :
  h !! this = Some (Runnable self) ->
  has_predecessor self = true ->
  set_predecessor this predecessor h = Aborted.
Proof.
  intros Hself Hhas. unfold set_predecessor.
  rewrite (load_RunnableTaskBase_eq h this self Hself). simpl.
  unfold has_predecessor in Hhas. apply negb_true_iff in Hhas. rewrite Hhas.
  reflexivity.
Qed.

(** What a call of [set_predecessor] on a runnable without a predecessor
    does to the store. *)
Lemma set_predecessor_links h (this predecessor : address)
    (self : RunnableTaskBase) o :
  h !! this = Some (Runnable self) ->
  has_predecessor self = false ->
  h !! predecessor = Some o ->
  exists h' o' self',
    set_predecessor this predecessor h = Done h' /\
    h' !! predecessor = Some o' /\
    reference_counted_base (task_node_of o') =
      increment_reference_count (reference_counted_base (task_node_of o)) /\
    h' !! this = Some (Runnable self') /\
    m_predecessor self' = Some predecessor /\
    get_respawn_flag self' = get_respawn_flag self /\
    (forall q, q <> this -> q <> predecessor -> h' !! q = h !! q).
Proof.
  intros Hself Hnone Hpred. unfold set_predecessor.
  rewrite (load_RunnableTaskBase_eq h this self Hself). simpl.
  unfold has_predecessor in Hnone. apply negb_false_iff in Hnone. rewrite Hnone. simpl.
  rewrite (load_TaskNode_eq h predecessor o Hpred). simpl.
  rewrite (store_TaskNode_eq h predecessor o _ Hpred). simpl.
  destruct (decide (predecessor = this)) as [-> | Hne].
  - rewrite Hself in Hpred. injection Hpred as <-.
    cbn [set_task_node task_node_of].
    rewrite (load_RunnableTaskBase_eq _ this _ (lookup_insert_eq h this _)). simpl.
    rewrite (store_RunnableTaskBase_eq _ this _ _ (lookup_insert_eq h this _)).
    eexists. eexists. eexists. split; [reflexivity |].
    rewrite lookup_insert_eq.
    split; [reflexivity |]. split; [reflexivity |]. split; [reflexivity |].
    split; [reflexivity |]. split; [reflexivity |].
    intros q Hq _. rewrite !lookup_insert_ne by congruence. reflexivity.
  - assert (Hthis : <[predecessor :=
                        set_task_node (TaskNode_increment_reference_count (task_node_of o)) o]> h
                      !! this = Some (Runnable self)).
    { rewrite lookup_insert_ne by exact Hne. exact Hself. }
    rewrite (load_RunnableTaskBase_eq _ this self Hthis). simpl.
    rewrite (store_RunnableTaskBase_eq _ this self _ Hthis).
    eexists. eexists. eexists. split; [reflexivity |].
    rewrite lookup_insert_ne by congruence. rewrite lookup_insert_eq.
    split; [reflexivity |].
    split; [destruct o; reflexivity |].
    rewrite lookup_insert_eq.
    split; [reflexivity |]. split; [reflexivity |]. split; [reflexivity |].
    intros q Hq Hq'. rewrite !lookup_insert_ne by congruence. reflexivity.
Qed.

Lemma get_predecessor_of_link (self : RunnableTaskBase) (p : address) :
  m_predecessor self = Some p -> get_predecessor self = Done p.
Proof.
  intros Hp. unfold get_predecessor. rewrite Hp. reflexivity.
Qed.

Lemma has_predecessor_of_link (self : RunnableTaskBase) (p : address) :
  m_predecessor self = Some p -> has_predecessor self = true.
Proof.
  intros Hp. unfold has_predecessor. rewrite Hp. reflexivity.
Qed.

(** C4. On a runnable with a predecessor set, [set_predecessor] aborts. On
    one without, it returns; the predecessor's reference count has been
    incremented once, [get_predecessor] then returns that predecessor, and a
    second [set_predecessor] aborts whatever its argument. [get_predecessor]
    aborts on a runnable without a predecessor. *)
Theorem set_predecessor_once
    h (this predecessor : address) (self : RunnableTaskBase) (pred : TaskNode) :
  h !! this = Some (Runnable self) ->
  load_TaskNode h predecessor = Done pred ->
  (has_predecessor self = true -> set_predecessor this predecessor h = Aborted) /\
  (has_predecessor self = false ->
     get_predecessor self = Aborted /\
     exists h' pred' self',
       set_predecessor this predecessor h = Done h' /\
       load_TaskNode h' predecessor = Done pred' /\
       reference_counted_base pred' =
         increment_reference_count (reference_counted_base pred) /\
       ref_count pred' = int32_t (ref_count pred + 1) /\
       (in_range 32 (ref_count pred) -> ref_count pred < INT32_MAX ->
          ref_count pred' = ref_count pred + 1) /\
       load_RunnableTaskBase h' this = Done self' /\
       has_predecessor self' = true /\
       get_predecessor self' = Done predecessor /\
       (forall other, set_predecessor this other h' = Aborted) /\
       (forall q, q <> this -> q <> predecessor -> h' !! q = h !! q)).
Proof.
  intros Hself Hload.
  split; [apply set_predecessor_aborts_when_set; exact Hself |].
  intros Hnone. split.
  { unfold get_predecessor. unfold has_predecessor in Hnone.
    rewrite Hnone. reflexivity. }
  apply load_TaskNode_Done in Hload as (o & Ho & <-).
  destruct (set_predecessor_links h this predecessor self o Hself Hnone Ho)
    as (h' & o' & self' & Hrun & Ho' & Hrc & Hself' & Hlink & _ & Hframe).
  exists h', (task_node_of o'), self'.
  split; [exact Hrun |].
  split; [apply load_TaskNode_eq; exact Ho' |].
  split; [exact Hrc |].
  assert (Hcount : ref_count (task_node_of o') = int32_t (ref_count (task_node_of o) + 1)).
  { unfold ref_count. rewrite Hrc. reflexivity. }
  split; [exact Hcount |].
  split.
  { intros Hrange Hmax. rewrite Hcount. apply int32_t_in_range.
    unfold in_range, INT32_MAX in *. simpl Z.sub in *. lia. }
  split; [apply load_RunnableTaskBase_eq; exact Hself' |].
  split; [exact (has_predecessor_of_link self' predecessor Hlink) |].
  split; [exact (get_predecessor_of_link self' predecessor Hlink) |].
  split; [| exact Hframe].
  intros other. apply (set_predecessor_aborts_when_set h' this other self' Hself').
  exact (has_predecessor_of_link self' predecessor Hlink).
Qed.

(** C9. [clear_predecessor] on a runnable with a predecessor resets the
    link: [has_predecessor] is false afterwards. It writes to no other field
    and no other object, so the reference count of every node, that of the
    former predecessor included, is what it was, and [set_predecessor] can
    be called again and returns. *)
Theorem clear_predecessor_keeps_reference
    h (this predecessor : address) (self : RunnableTaskBase) :
  h !! this = Some (Runnable self) ->
  m_predecessor self = Some predecessor ->
  exists h' self',
    exec this call_clear_predecessor h = Done h' /\
    load_RunnableTaskBase h' this = Done self' /\
    self' = clear_predecessor self /\
    m_predecessor self' = nullptr /\
    has_predecessor self' = false /\
    runnable_base self' = runnable_base self /\
    get_respawn_flag self' = get_respawn_flag self /\
    (forall q, load_TaskNode h' q = load_TaskNode h q) /\
    (forall q, q <> this -> h' !! q = h !! q) /\
    (forall next o, h !! next = Some o ->
       exists h'' self'',
         set_predecessor this next h' = Done h'' /\
         load_RunnableTaskBase h'' this = Done self'' /\
         get_predecessor self'' = Done next).
Proof.
  intros Hself Hlink.
  exists (<[this := Runnable (clear_predecessor self)]> h), (clear_predecessor self).
  assert (Hthis : <[this := Runnable (clear_predecessor self)]> h !! this
                  = Some (Runnable (clear_predecessor self)))
    by apply lookup_insert_eq.
  split.
  { cbn [exec]. rewrite (load_RunnableTaskBase_eq h this self Hself). simpl.
    apply (store_RunnableTaskBase_eq h this self _ Hself). }
  split; [apply load_RunnableTaskBase_eq; exact Hthis |].
  repeat (split; [reflexivity |]).
  split.
  { intros q. unfold load_TaskNode, load. destruct (decide (this = q)) as [<- | Hne].
    - rewrite Hthis, Hself. reflexivity.
    - rewrite lookup_insert_ne by exact Hne. reflexivity. }
  split.
  { intros q Hne. rewrite lookup_insert_ne by congruence. reflexivity. }
  intros next o Ho.
  assert (Hnext : exists o1, <[this := Runnable (clear_predecessor self)]> h !! next = Some o1).
  { destruct (decide (this = next)) as [<- | Hne].
    - eexists. exact Hthis.
    - exists o. rewrite lookup_insert_ne by exact Hne. exact Ho. }
  destruct Hnext as (o1 & Ho1).
  destruct (set_predecessor_links _ this next (clear_predecessor self) o1 Hthis
              eq_refl Ho1)
    as (h'' & o'' & self'' & Hrun & _ & _ & Hself'' & Hlink'' & _).
  exists h'', self''. split; [exact Hrun |].
  split; [apply load_RunnableTaskBase_eq; exact Hself'' |].
  exact (get_predecessor_of_link self'' next Hlink'').
Qed.

End Predecessor.

(** ** Priority under sequences of calls *)

Section PriorityKept.

Context {SchedulingInfo : Type}.
Implicit Types (h : gmap address (object SchedulingInfo)) (o : object SchedulingInfo).









End PriorityKept.


(** ** Execution of a runnable *)

Section Apply.

Context {SchedulingInfo ResultType FunctorType : Type}.
Variable functor_call :
  member_type ->
  RunnableTask SchedulingInfo ResultType FunctorType ->
  RunnableTask SchedulingInfo ResultType FunctorType.

Implicit Types (task self : RunnableTask SchedulingInfo ResultType FunctorType).
Implicit Types (t : thread) (team : list thread).

Lemma only_one_thread_host t :
  space t = HostSpace -> (only_one_thread t = true <-> team_rank (member t) = 0).
Proof.
  intros Hs. unfold only_one_thread. rewrite Hs. rewrite Z.eqb_eq.
  split; intros H; symmetry; exact H.
Qed.

Lemma only_one_thread_cuda t (x y : Z) :
  space t = CudaSpace x y -> (only_one_thread t = true <-> x = 0 /\ y = 0).
Proof.
  intros Hs. unfold only_one_thread. rewrite Hs.
  rewrite andb_true_iff, !Z.eqb_eq. split; intros [Hx Hy]; split; congruence.
Qed.

Lemma resume_of_apply t self task :
  snd (apply functor_call t self) task =
    if only_one_thread t && negb (get_respawn_flag (task_base task))
    then [functor_destroyed t] else [].
Proof. reflexivity. Qed.

Lemma run_to_barrier_task team :
  forall self,
    fst (run_to_barrier functor_call team self) =
      fold_left (fun acc t => apply_functor functor_call (member t) acc) team self.
Proof.
  induction team as [| t rest IH]; intros self.
  - reflexivity.
  - cbn [run_to_barrier fold_left]. unfold apply at 1.
    specialize (IH (apply_functor functor_call (member t) self)).
    destruct (run_to_barrier functor_call rest _) as [task2 resumes].
    exact IH.
Qed.

Lemma run_to_barrier_resumes team :
  forall self task,
    flat_map (fun resume => resume task) (snd (run_to_barrier functor_call team self)) =
      if get_respawn_flag (task_base task) then []
      else List.map functor_destroyed (List.filter only_one_thread team).
Proof.
  induction team as [| t rest IH]; intros self task.
  - simpl. destruct (get_respawn_flag _); reflexivity.
  - cbn [run_to_barrier]. unfold apply at 1.
    specialize (IH (apply_functor functor_call (member t) self) task).
    destruct (run_to_barrier functor_call rest _) as [task2 resumes].
    cbn [snd flat_map List.filter] in *. rewrite IH.
    destruct (get_respawn_flag (task_base task)), (only_one_thread t); reflexivity.
Qed.

Lemma team_apply_eq team self :
  team_apply functor_call team self =
    (fold_left (fun acc t => apply_functor functor_call (member t) acc) team self,
     if get_respawn_flag
          (task_base (fold_left (fun acc t => apply_functor functor_call (member t) acc)
                        team self))
     then []
     else List.map functor_destroyed (List.filter only_one_thread team)).
Proof.
  unfold team_apply.
  pose proof (run_to_barrier_task team self) as Htask.
  pose proof (run_to_barrier_resumes team self) as Hres.
  destruct (run_to_barrier functor_call team self) as [task resumes].
  cbn [fst snd] in *. subst task. rewrite Hres. reflexivity.
Qed.

Lemma no_rank_zero_no_designated team :
  (forall t, In t team -> space t = HostSpace) ->
  ~ In 0 (List.map rank_of team) ->
  List.filter only_one_thread team = [].
Proof.
  induction team as [| t rest IH]; intros Hhost Hno.
  - reflexivity.
  - cbn [List.filter]. destruct (only_one_thread t) eqn:Hone.
    + exfalso. apply Hno. left.
      apply (only_one_thread_host t (Hhost t (or_introl eq_refl))). exact Hone.
    + apply IH.
      * intros t' Hin. apply Hhost. right. exact Hin.
      * intros Hin. apply Hno. right. exact Hin.
Qed.

Lemma one_rank_zero_one_designated team :
  (forall t, In t team -> space t = HostSpace) ->
  List.NoDup (List.map rank_of team) ->
  In 0 (List.map rank_of team) ->
  exists t, List.filter only_one_thread team = [t] /\ In t team /\ rank_of t = 0.
Proof.
  induction team as [| t rest IH]; intros Hhost Hnodup Hzero.
  - contradiction.
  - cbn [List.map] in Hnodup. apply NoDup_cons_iff in Hnodup as [Hfresh Hnodup].
    assert (Hhost' : forall t', In t' rest -> space t' = HostSpace)
      by (intros t' Hin; apply Hhost; right; exact Hin).
    cbn [List.filter]. destruct (only_one_thread t) eqn:Hone.
    + apply (only_one_thread_host t (Hhost t (or_introl eq_refl))) in Hone.
      exists t. split; [| split; [left; reflexivity | exact Hone]].
      rewrite (no_rank_zero_no_designated rest Hhost'); [reflexivity |].
      unfold rank_of in Hfresh at 1. rewrite Hone in Hfresh. exact Hfresh.
    + destruct Hzero as [Hzero | Hzero].
      * apply (only_one_thread_host t (Hhost t (or_introl eq_refl))) in Hzero.
        congruence.
      * destruct (IH Hhost' Hnodup Hzero) as (t' & Hf & Hin & Hr).
        exists t'. split; [exact Hf | split; [right; exact Hin | exact Hr]].
Qed.

(** C3. An execution pass of [apply] by a team, or by a single worker as a
    team of one: a thread destroys the payload functor exactly when it is
    the designated thread (team rank zero; under CUDA the thread whose x and
    y indices are zero) and the respawn flag is not set once every member
    has passed the barrier. With the flag set nobody destroys the functor,
    no thread of another rank ever does, and in a team whose ranks are
    pairwise distinct and include zero exactly one thread does. *)
Theorem apply_destroys_functor_on_rank_zero_unless_respawn team self :
  exists task events,
    team_apply functor_call team self = (task, events) /\
    task = fold_left (fun acc t => apply_functor functor_call (member t) acc) team self /\
    (forall t, In (functor_destroyed t) events <->
               In t team /\ only_one_thread t = true /\
               get_respawn_flag (task_base task) = false) /\
    (get_respawn_flag (task_base task) = true -> events = []) /\
    (forall t, In (functor_destroyed t) events <->
               In t team /\
               match space t with
               | HostSpace => team_rank (member t) = 0
               | CudaSpace threadIdx_x threadIdx_y => threadIdx_x = 0 /\ threadIdx_y = 0
               end /\
               get_respawn_flag (task_base task) = false) /\
    (get_respawn_flag (task_base task) = false ->
     (forall t, In t team -> space t = HostSpace) ->
     List.NoDup (List.map rank_of team) ->
     In 0 (List.map rank_of team) ->
     exists t, events = [functor_destroyed t] /\ In t team /\ team_rank (member t) = 0) /\
    (forall t, team = [t] ->
       task = fst (apply functor_call t self) /\
       events = snd (apply functor_call t self) task /\
       (events = [functor_destroyed t] <->
          only_one_thread t = true /\ get_respawn_flag (task_base task) = false)).
Proof.
  rewrite team_apply_eq.
  set (task := fold_left _ team self).
  eexists. eexists. split; [reflexivity |]. split; [reflexivity |].
  assert (Hin : forall t,
             In (functor_destroyed t)
                (if get_respawn_flag (task_base task) then []
                 else List.map functor_destroyed (List.filter only_one_thread team)) <->
             In t team /\ only_one_thread t = true /\
             get_respawn_flag (task_base task) = false).
  { intros t. destruct (get_respawn_flag (task_base task)).
    - split; [intros [] | intros (_ & _ & H); discriminate].
    - rewrite in_map_iff. split.
      + intros (t' & Heq & Hf). injection Heq as ->.
        apply filter_In in Hf as [Hin Hone]. repeat split; assumption.
      + intros (Hin & Hone & _). exists t. split; [reflexivity |].
        apply filter_In. split; assumption. }
  split; [exact Hin |].
  split; [intros Hflag; rewrite Hflag; reflexivity |].
  split.
  { intros t. rewrite (Hin t).
    destruct (space t) as [| x y] eqn:Hs.
    - rewrite (only_one_thread_host t Hs). reflexivity.
    - rewrite (only_one_thread_cuda t x y Hs). reflexivity. }
  split.
  { intros Hflag Hhost Hnodup Hzero. rewrite Hflag.
    destruct (one_rank_zero_one_designated team Hhost Hnodup Hzero) as (t & Hf & Ht & Hr).
    exists t. rewrite Hf. repeat split; assumption. }
  intros t ->. subst task. cbn [fold_left].
  split; [reflexivity |]. split.
  { rewrite resume_of_apply. cbn [List.filter List.map].
    destruct (get_respawn_flag _), (only_one_thread t); reflexivity. }
  cbn [List.filter List.map].
  destruct (get_respawn_flag _), (only_one_thread t); split;
    first [ intros H; discriminate H
          | intros [H1 H2]; discriminate
          | intros _; split; reflexivity
          | intros _; reflexivity ].
Qed.

End Apply.

(** * Further properties of the member functions *)

(** ** A call that returns, object by object *)

Section Effects.

Context {SchedulingInfo : Type}.
Implicit Types (h : gmap address (object SchedulingInfo)) (o : object SchedulingInfo).
Implicit Types (c : member_call SchedulingInfo).
Implicit Types (calls : list (address * member_call SchedulingInfo)).

Lemma store_AggregateTask_eq h p (a a' : AggregateTask SchedulingInfo) :
  h !! p = Some (AggregateNode a) ->
  store_AggregateTask p a' h = Done (<[p := AggregateNode a']> h).
Proof.
  intros Ha. unfold store_AggregateTask.
  rewrite (proj2 (load_AggregateTask_Done h p a) Ha). reflexivity.
Qed.

Lemma insert_at_callee h this o o' c :
  h !! this = Some o ->
  (forall q, c <> call_set_predecessor q) ->
  callee_effect c o = o' ->
  forall p, <[this := o']> h !! p = effect_on p (this, c) <$> (h !! p).
Proof.
  intros Ho Hc Heff p. unfold effect_on. cbn [fst snd].
  assert (Hpred : forall x, predecessor_effect p c x = x).
  { intros x. destruct c; try reflexivity. exfalso. exact (Hc _ eq_refl). }
  destruct (decide (this = p)) as [<- | Hne].
  - rewrite lookup_insert_eq, Ho. cbn [fmap option_fmap option_map].
    rewrite Hpred, Heff. reflexivity.
  - rewrite lookup_insert_ne by exact Hne.
    destruct (h !! p) as [x |]; cbn [fmap option_fmap option_map];
      [rewrite Hpred |]; reflexivity.
Qed.

Lemma exec_effect h h' (this : address) c :
  exec this c h = Done h' ->
  forall p, h' !! p = effect_on p (this, c) <$> (h !! p).
Proof.
  destruct c; cbn [exec]; intros H.
  - invert_bind H. apply load_TaskNode_Done in Ha as (o & Ho & <-).
    rewrite (store_TaskNode_eq h this o _ Ho) in H. injection H as <-.
    apply (insert_at_callee h this o); [exact Ho | discriminate |].
    destruct o; reflexivity.
  - invert_bind H. apply load_TaskNode_Done in Ha as (o & Ho & <-).
    invert_bind H. destruct a as [reached_zero n'].
    rewrite (store_TaskNode_eq h this o _ Ho) in H. injection H as <-.
    apply (insert_at_callee h this o); [exact Ho | discriminate |].
    unfold TaskNode_decrement_and_check_reference_count,
      decrement_and_check_reference_count in Ha.
    cbn [atomic_fetch_add] in Ha.
    destruct (0 <? _) in Ha; [| discriminate]. injection Ha as _ <-.
    destruct o; reflexivity.
  - invert_bind H. apply load_TaskNode_Done in Ha as (o & Ho & <-).
    rewrite (store_TaskNode_eq h this o _ Ho) in H. injection H as <-.
    apply (insert_at_callee h this o); [exact Ho | discriminate |].
    destruct o; reflexivity.
  - invert_bind H. apply load_TaskNode_Done in Ha as (o & Ho & <-).
    invert_bind H. destruct a as [n' visited].
    rewrite (store_TaskNode_eq h this o _ Ho) in H. injection H as <-.
    apply (insert_at_callee h this o); [exact Ho | discriminate |].
    unfold consume_wait_queue in Ha.
    destruct (m_wait_queue (task_node_of o)) as [chain |] eqn:Hq;
      cbn in Ha; [| discriminate].
    injection Ha as <- _. destruct o; reflexivity.
  - invert_bind H. apply load_TaskNode_Done in Ha as (o & Ho & <-).
    invert_bind H.
    rewrite (store_TaskNode_eq h this o _ Ho) in H. injection H as <-.
    apply (insert_at_callee h this o); [exact Ho | discriminate |].
    unfold set_priority in Ha.
    destruct (negb _) in Ha; [| discriminate]. injection Ha as <-.
    destruct o; reflexivity.
  - invert_bind H. apply load_RunnableTaskBase_Done in Ha.
    rewrite (store_RunnableTaskBase_eq h this a _ Ha) in H. injection H as <-.
    apply (insert_at_callee h this (Runnable a)); [exact Ha | discriminate | reflexivity].
  - invert_bind H. apply load_RunnableTaskBase_Done in Ha.
    rewrite (store_RunnableTaskBase_eq h this a _ Ha) in H. injection H as <-.
    apply (insert_at_callee h this (Runnable a)); [exact Ha | discriminate | reflexivity].
  - unfold set_predecessor in H.
    invert_bind H. apply load_RunnableTaskBase_Done in Ha. rename a into self.
    invert_bind H. clear Ha0 a.
    invert_bind H. apply load_TaskNode_Done in Ha0 as (o & Ho & <-).
    invert_bind H. rewrite (store_TaskNode_eq h predecessor o _ Ho) in Ha0.
    injection Ha0 as <-.
    invert_bind H. apply load_RunnableTaskBase_Done in Ha0. rename a into self1.
    rewrite (store_RunnableTaskBase_eq _ this self1 _ Ha0) in H. injection H as <-.
    intros p. unfold effect_on, predecessor_effect. cbn [fst snd].
    destruct (decide (predecessor = p)) as [-> | Hq];
      destruct (decide (this = p)) as [-> | Hthis].
    + rewrite lookup_insert_eq in Ha0. rewrite lookup_insert_eq.
      rewrite Ho. cbn [fmap option_fmap option_map].
      rewrite Ho in Ha. injection Ha as ->.
      cbn [set_task_node task_node_of] in *. injection Ha0 as <-. reflexivity.
    + rewrite lookup_insert_ne by exact Hthis. rewrite lookup_insert_eq.
      rewrite Ho. reflexivity.
    + rewrite lookup_insert_ne in Ha0 by exact Hq. rewrite lookup_insert_eq.
      rewrite Ha in Ha0. injection Ha0 as <-. rewrite Ha. reflexivity.
    + rewrite !lookup_insert_ne by assumption.
      destruct (h !! p); reflexivity.
  - invert_bind H. apply load_AggregateTask_Done in Ha.
    invert_bind H.
    rewrite (store_AggregateTask_eq h this a _ Ha) in H. injection H as <-.
    apply (insert_at_callee h this (AggregateNode a)); [exact Ha | discriminate |].
    unfold vla_value_at_assign in Ha0.
    destruct (_ && _) in Ha0; [| discriminate]. injection Ha0 as <-. reflexivity.
  - invert_bind H. apply load_AggregateTask_Done in Ha.
    rewrite (store_AggregateTask_eq h this a _ Ha) in H. injection H as <-.
    apply (insert_at_callee h this (AggregateNode a));
      [exact Ha | discriminate | reflexivity].
  - invert_bind H. apply load_TaskNode_Done in Ha as (o & Ho & <-).
    rewrite (store_TaskNode_eq h this o _ Ho) in H. injection H as <-.
    apply (insert_at_callee h this o); [exact Ho | discriminate |].
    destruct o; reflexivity.
Qed.

(** A field that is a function of the object, followed along a sequence of
    calls that runs to its end. *)
Lemma exec_all_observed {A : Type} (obs : object SchedulingInfo -> A)
    (step : address * member_call SchedulingInfo -> A -> A) (p : address) :
  (forall call o, obs (effect_on p call o) = step call (obs o)) ->
  forall calls h h' o,
    h !! p = Some o ->
    exec_all calls h = Done h' ->
    exists o', h' !! p = Some o' /\
               obs o' = fold_left (fun value call => step call value) calls (obs o).
Proof.
  intros Hstep. induction calls as [| [this c] rest IH]; intros h h' o Ho H.
  - injection H as <-. exists o. split; [exact Ho | reflexivity].
  - cbn [exec_all] in H. invert_bind H.
    pose proof (exec_effect h a this c Ha p) as Hp. rewrite Ho in Hp.
    cbn [fmap option_fmap option_map] in Hp.
    destruct (IH a h' _ Hp H) as (o' & Ho' & Hobs).
    exists o'. split; [exact Ho' |].
    rewrite Hobs, Hstep. reflexivity.
Qed.

End Effects.

(** ** More arithmetic of the counters *)

Lemma int32_t_range (z : Z) : in_range 32 (int32_t z).
Proof.
  unfold in_range, int32_t, wrap. change (32 - 1) with 31.
  pose proof (Z.mod_pos_bound (z + 2 ^ 31) (2 ^ 32) eq_refl). lia.
Qed.

Lemma int16_t_range (z : Z) : in_range 16 (int16_t z).
Proof.
  unfold in_range, int16_t, wrap. change (16 - 1) with 15.
  pose proof (Z.mod_pos_bound (z + 2 ^ 15) (2 ^ 16) eq_refl). lia.
Qed.

Lemma int32_t_add_l (a b : Z) : int32_t (int32_t a + b) = int32_t (a + b).
Proof.
  unfold int32_t, wrap. change (32 - 1) with 31.
  replace ((a + 2 ^ 31) mod 2 ^ 32 - 2 ^ 31 + b + 2 ^ 31)
    with ((a + 2 ^ 31) mod 2 ^ 32 + b) by lia.
  rewrite Zplus_mod_idemp_l. f_equal. f_equal. lia.
Qed.

Lemma int16_t_fixed_iff (z : Z) : int16_t z = z <-> in_range 16 z.
Proof.
  split.
  - intros <-. apply int16_t_range.
  - apply int16_t_in_range.
Qed.

(** ** Reference counts over several calls *)

(** X2. Taking a reference and giving it back: on a count from 0 up to, not
    including, the largest one, [increment_reference_count] followed by
    [decrement_and_check_reference_count] returns with the object as it was,
    and reports true exactly when the count was 0, which the increment does
    not refuse. On a negative count the pair aborts. *)
Theorem increment_then_decrement_restores (this : ReferenceCountedBase) :
  (0 <= m_ref_count this < INT32_MAX ->
     decrement_and_check_reference_count (increment_reference_count this)
       = Done (m_ref_count this =? 0, this)) /\
  (in_range 32 (m_ref_count this) -> m_ref_count this < 0 ->
     decrement_and_check_reference_count (increment_reference_count this) = Aborted).
Proof.
  destruct this as [c]. cbn [m_ref_count]. unfold INT32_MAX. split.
  - intros Hc.
    assert (Hup : int32_t (c + 1) = c + 1)
      by (apply int32_t_in_range; unfold in_range; simpl Z.sub; lia).
    rewrite decrement_positive;
      unfold increment_reference_count, atomic_increment; cbn [m_ref_count];
      rewrite Hup; [| lia].
    replace (c + 1 - 1) with c by lia.
    rewrite int32_t_in_range by (unfold in_range; simpl Z.sub; lia).
    f_equal. f_equal. destruct (Z.eqb_spec (c + 1) 1), (Z.eqb_spec c 0); lia || reflexivity.
  - intros Hr Hc. apply decrement_nonpositive.
    unfold increment_reference_count, atomic_increment. cbn [m_ref_count].
    rewrite int32_t_in_range; unfold in_range in *; simpl Z.sub in *; lia.
Qed.

Lemma decrement_times_below (k : nat) :
  forall c : Z,
    in_range 32 c -> Z.of_nat k < c ->
    decrement_times k {| m_ref_count := c |}
      = Done (repeat false k, {| m_ref_count := c - Z.of_nat k |}).
Proof.
  induction k as [| k IH]; intros c Hr Hk.
  - cbn [decrement_times repeat]. replace (c - Z.of_nat 0) with c by lia. reflexivity.
  - cbn [decrement_times]. rewrite decrement_positive by (cbn [m_ref_count]; lia).
    cbn [m_ref_count]. cbn [mbind outcome_bind].
    assert (Hc : int32_t (c - 1) = c - 1)
      by (apply int32_t_in_range; unfold in_range in *; simpl Z.sub in *; lia).
    rewrite Hc. rewrite IH by (unfold in_range in *; simpl Z.sub in *; lia).
    cbn [mbind outcome_bind mret outcome_ret repeat].
    replace (c =? 1) with false by (symmetry; apply Z.eqb_neq; lia).
    replace (c - 1 - Z.of_nat k) with (c - Z.of_nat (S k)) by lia. reflexivity.
Qed.

Lemma decrement_times_exact (k : nat) :
  forall c : Z,
    in_range 32 c -> c = Z.of_nat (S k) ->
    decrement_times (S k) {| m_ref_count := c |}
      = Done (repeat false k ++ [true], {| m_ref_count := 0 |}).
Proof.
  induction k as [| k IH]; intros c Hr Hk.
  - subst c. reflexivity.
  - cbn [decrement_times]. rewrite decrement_positive by (cbn [m_ref_count]; lia).
    cbn [m_ref_count]. cbn [mbind outcome_bind].
    assert (Hc : int32_t (c - 1) = c - 1)
      by (apply int32_t_in_range; unfold in_range in *; simpl Z.sub in *; lia).
    rewrite Hc.
    specialize (IH (c - 1)). cbn [decrement_times] in IH.
    rewrite IH by (unfold in_range in *; simpl Z.sub in *; lia).
    cbn [mbind outcome_bind mret outcome_ret repeat app].
    replace (c =? 1) with false by (symmetry; apply Z.eqb_neq; lia).
    reflexivity.
Qed.

Lemma decrement_times_beyond (k : nat) :
  forall c : Z,
    in_range 32 c -> c < Z.of_nat k ->
    0 <= c ->
    decrement_times k {| m_ref_count := c |} = Aborted.
Proof.
  induction k as [| k IH]; intros c Hr Hk Hc.
  - lia.
  - cbn [decrement_times]. destruct (Z_lt_le_dec 0 c) as [Hpos | Hle].
    + rewrite decrement_positive by (cbn [m_ref_count]; exact Hpos).
      cbn [m_ref_count]. cbn [mbind outcome_bind].
      assert (Hc1 : int32_t (c - 1) = c - 1)
        by (apply int32_t_in_range; unfold in_range in *; simpl Z.sub in *; lia).
      rewrite Hc1. rewrite IH by (unfold in_range in *; simpl Z.sub in *; lia).
      reflexivity.
    + rewrite decrement_nonpositive by (cbn [m_ref_count]; exact Hle). reflexivity.
Qed.

(** X3. Giving back all the references of an object with a count of c > 0:
    fewer than c decrements in a row all report false, the c-th is the one
    that reports true and leaves the count at 0, and a run of more than c
    decrements aborts. *)
Theorem decrement_times_last_reports_zero (this : ReferenceCountedBase) :
  0 < m_ref_count this -> in_range 32 (m_ref_count this) ->
  (forall k : nat,
     Z.of_nat k < m_ref_count this ->
     decrement_times k this
       = Done (repeat false k, {| m_ref_count := m_ref_count this - Z.of_nat k |})) /\
  decrement_times (Z.to_nat (m_ref_count this)) this
    = Done (repeat false (Z.to_nat (m_ref_count this) - 1) ++ [true],
            {| m_ref_count := 0 |}) /\
  (forall k : nat,
     m_ref_count this < Z.of_nat k -> decrement_times k this = Aborted).
Proof.
  destruct this as [c]. cbn [m_ref_count]. intros Hpos Hr.
  split; [intros k Hk; apply decrement_times_below; assumption |].
  split.
  - destruct (Z.to_nat c) as [| k] eqn:Hk; [lia |].
    rewrite decrement_times_exact; [| exact Hr | lia].
    replace (S k - 1)%nat with k by lia. reflexivity.
  - intros k Hk. apply decrement_times_beyond; [exact Hr | exact Hk | lia].
Qed.

(** ** Priorities and 16 bits *)

(** X5. The priority is kept in 16 bits: what [get_priority] returns after
    the constructor or after a [set_priority] that returns is the priority
    given exactly when that priority fits in a signed 16-bit integer, and
    is always a 16-bit value. *)
Theorem priority_is_stored_in_16_bits (priority : TaskPriority) :
  (forall task_type queue_base initial_reference_count allocation_size,
     let this := TaskNode_ctor task_type priority queue_base
                   initial_reference_count allocation_size in
     in_range 16 (get_priority this) /\
     (get_priority this = priority <-> in_range 16 priority)) /\
  (forall this this' : TaskNode,
     set_priority priority this = Done this' ->
     in_range 16 (get_priority this') /\
     (get_priority this' = priority <-> in_range 16 priority)).
Proof.
  split.
  - intros task_type queue_base rc size this. subst this.
    unfold get_priority, TaskNode_ctor. cbn [m_priority].
    split; [apply int16_t_range | apply int16_t_fixed_iff].
  - intros this this' Hset. unfold set_priority in Hset.
    destruct (negb (is_enqueued this)); [| discriminate].
    injection Hset as <-. unfold get_priority, set_m_priority. cbn [m_priority].
    split; [apply int16_t_range | apply int16_t_fixed_iff].
Qed.

(** ** Fields of a node along a sequence of calls *)

Section Sequences.

Context {SchedulingInfo : Type}.
Implicit Types (h : gmap address (object SchedulingInfo)) (o : object SchedulingInfo).
Implicit Types (c : member_call SchedulingInfo).
Implicit Types (calls : list (address * member_call SchedulingInfo)).

(** A field seen through [view] that only the calls picked out by [written]
    write to has, after a sequence of calls that runs to its end, the last
    value written. *)
Lemma exec_all_last_written {B : Type} (view : object SchedulingInfo -> option B)
    (written : address * member_call SchedulingInfo -> option B) (p : address) :
  (forall call o b,
     view o = Some b -> view (effect_on p call o) = Some (default b (written call))) ->
  forall calls h h' o b,
    h !! p = Some o ->
    view o = Some b ->
    exec_all calls h = Done h' ->
    exists o', h' !! p = Some o' /\ view o' = Some (last_written written calls b).
Proof.
  intros Hstep. induction calls as [| [this c] rest IH]; intros h h' o b Ho Hb H.
  - injection H as <-. exists o. split; [exact Ho | exact Hb].
  - cbn [exec_all] in H. invert_bind H.
    pose proof (exec_effect h a this c Ha p) as Hp. rewrite Ho in Hp.
    cbn [fmap option_fmap option_map] in Hp.
    exact (IH a h' _ _ Hp (Hstep (this, c) o b Hb) H).
Qed.

(** X1. The allocation size given to the constructor of a TaskNode, of a
    runnable or of an aggregate is what [get_allocation_size] returns, and a
    sequence of member calls on the nodes of the store that runs to its end
    leaves the allocation size of every node as it was. *)
Theorem allocation_size_is_fixed_at_construction
    calls h h' (p : address) (this : TaskNode) :
  load_TaskNode h p = Done this ->
  exec_all calls h = Done h' ->
  (exists this',
     load_TaskNode h' p = Done this' /\
     get_allocation_size (pool_allocated_base this') =
       get_allocation_size (pool_allocated_base this)) /\
  (forall task_type priority queue_base initial_reference_count allocation_size,
     get_allocation_size
       (pool_allocated_base
          (TaskNode_ctor task_type priority queue_base
             initial_reference_count allocation_size)) = allocation_size) /\
  (forall apply_function_ptr task_type priority queue_base
          initial_reference_count allocation_size,
     get_allocation_size
       (pool_allocated_base
          (runnable_base
             (RunnableTaskBase_ctor apply_function_ptr task_type priority queue_base
                initial_reference_count allocation_size))) = allocation_size) /\
  (forall (info : SchedulingInfo) aggregate_predecessor_count queue_base
          initial_reference_count allocation_size,
     get_allocation_size
       (pool_allocated_base
          (aggregate_base
             (AggregateTask_ctor info aggregate_predecessor_count queue_base
                initial_reference_count allocation_size))) = allocation_size).
Proof.
  intros Hload Hrun. split; [| repeat split].
  destruct (identities_kept_TaskNode h h' p this (exec_all_keeps calls h h' Hrun) Hload)
    as (this' & Hload' & _ & Hsize).
  exists this'. split; assumption.
Qed.

Lemma reference_count_step (p : address)
    (call : address * member_call SchedulingInfo) o :
  ref_count (task_node_of (effect_on p call o)) =
    if decide (reference_delta p call = 0)
    then ref_count (task_node_of o)
    else int32_t (ref_count (task_node_of o) + reference_delta p call).
Proof.
  destruct call as [this c]. unfold effect_on, predecessor_effect, reference_delta.
  cbn [fst snd].
  destruct c; try destruct (decide (predecessor = p));
    destruct (decide (this = p)); destruct o;
    try (unfold callee_effect, node_effect, try_add_waiting;
         try destruct (try_push _ _)); reflexivity.
Qed.

Lemma reference_count_fold (p : address) calls :
  forall z : Z,
    in_range 32 z ->
    fold_left
      (fun value call =>
         if decide (reference_delta p call = 0) then value
         else int32_t (value + reference_delta p call))
      calls z
    = int32_t (z + net_references p calls).
Proof.
  induction calls as [| call rest IH]; intros z Hz.
  - cbn [fold_left net_references fold_right].
    rewrite Z.add_0_r. symmetry. apply int32_t_in_range. exact Hz.
  - cbn [fold_left net_references fold_right].
    fold (net_references p rest).
    destruct (decide (reference_delta p call = 0)) as [-> | Hd].
    + rewrite IH by exact Hz. reflexivity.
    + rewrite IH by apply int32_t_range.
      rewrite int32_t_add_l. f_equal. lia.
Qed.

(** X4. The books of a reference count. After a sequence of member calls on
    the nodes of the store that runs to its end, the count of a node is the
    count it had, plus one for each [increment_reference_count] on it and
    each [set_predecessor] naming it, less one for each
    [decrement_and_check_reference_count] on it, in 32-bit arithmetic; no
    other call changes it. *)
Theorem reference_count_is_accounted_for
    calls h h' (p : address) (this : TaskNode) :
  load_TaskNode h p = Done this ->
  in_range 32 (ref_count this) ->
  exec_all calls h = Done h' ->
  exists this',
    load_TaskNode h' p = Done this' /\
    ref_count this' = int32_t (ref_count this + net_references p calls) /\
    (in_range 32 (ref_count this + net_references p calls) ->
       ref_count this' = ref_count this + net_references p calls).
Proof.
  intros Hload Hr Hrun. apply load_TaskNode_Done in Hload as (o & Ho & <-).
  destruct (exec_all_observed (fun x => ref_count (task_node_of x))
              (fun call value =>
                 if decide (reference_delta p call = 0) then value
                 else int32_t (value + reference_delta p call))
              p (reference_count_step p) calls h h' o Ho Hrun)
    as (o' & Ho' & Hcount).
  exists (task_node_of o'). split; [apply load_TaskNode_eq; exact Ho' |].
  rewrite reference_count_fold in Hcount by exact Hr.
  split; [exact Hcount |].
  intros Hsum. rewrite Hcount. apply int32_t_in_range. exact Hsum.
Qed.

Lemma priority_step (p : address) (call : address * member_call SchedulingInfo) o b :
  Some (get_priority (task_node_of o)) = Some b ->
  Some (get_priority (task_node_of (effect_on p call o)))
    = Some (default b (priority_written p call)).
Proof.
  intros [= <-]. f_equal.
  destruct call as [this c]. unfold effect_on, predecessor_effect, priority_written.
  cbn [fst snd].
  destruct c; try destruct (decide (predecessor = p));
    destruct (decide (this = p)); destruct o;
    try (unfold callee_effect, node_effect, try_add_waiting;
         try destruct (try_push _ _)); reflexivity.
Qed.

(** X6. After a sequence of member calls on the nodes of the store that runs
    to its end, [get_priority] on a node returns the priority of the last
    [set_priority] on that node, narrowed to 16 bits, or the priority the
    node had if there was none: no other member function writes it. *)
Theorem priority_is_the_last_one_set
    calls h h' (p : address) (this : TaskNode) :
  load_TaskNode h p = Done this ->
  exec_all calls h = Done h' ->
  exists this',
    load_TaskNode h' p = Done this' /\
    get_priority this' = last_written (priority_written p) calls (get_priority this).
Proof.
  intros Hload Hrun. apply load_TaskNode_Done in Hload as (o & Ho & <-).
  destruct (exec_all_last_written (fun x => Some (get_priority (task_node_of x)))
              (priority_written p) p (priority_step p) calls h h' o _ Ho eq_refl Hrun)
    as (o' & Ho' & Hview).
  exists (task_node_of o'). split; [apply load_TaskNode_eq; exact Ho' |].
  injection Hview as Hview. exact Hview.
Qed.

Lemma respawn_flag_step (p : address)
    (call : address * member_call SchedulingInfo) o b :
  respawn_flag_view o = Some b ->
  respawn_flag_view (effect_on p call o) = Some (default b (respawn_flag_written p call)).
Proof.
  destruct o as [n | r | a]; try discriminate. intros [= <-].
  destruct call as [this c]. unfold effect_on, predecessor_effect, respawn_flag_written.
  cbn [fst snd].
  destruct c; try destruct (decide (predecessor = p));
    destruct (decide (this = p)); reflexivity.
Qed.

(** X7. After a sequence of member calls on the nodes of the store that runs
    to its end, a runnable is still a runnable and [get_respawn_flag] on it
    returns the value of the last [set_respawn_flag] on it (true for a call
    without an argument), or the flag it had if there was none. *)
Theorem respawn_flag_is_the_last_one_set
    calls h h' (p : address) (this : RunnableTaskBase) :
  h !! p = Some (Runnable this) ->
  exec_all calls h = Done h' ->
  exists this',
    h' !! p = Some (Runnable this') /\
    get_respawn_flag this'
      = last_written (respawn_flag_written p) calls (get_respawn_flag this).
Proof.
  intros Hthis Hrun.
  destruct (exec_all_last_written respawn_flag_view (respawn_flag_written p) p
              (respawn_flag_step p) calls h h' (Runnable this) _ Hthis eq_refl Hrun)
    as (o' & Ho' & Hview).
  destruct o' as [n | r | a]; try discriminate.
  exists r. split; [exact Ho' |]. injection Hview as Hview. exact Hview.
Qed.

Lemma scheduling_info_step (p : address)
    (call : address * member_call SchedulingInfo) o b :
  scheduling_info_view o = Some b ->
  scheduling_info_view (effect_on p call o)
    = Some (default b (scheduling_info_written p call)).
Proof.
  destruct o as [n | r | a]; try discriminate. intros [= <-].
  destruct call as [this c]. unfold effect_on, predecessor_effect, scheduling_info_written.
  cbn [fst snd].
  destruct c; try destruct (decide (predecessor = p));
    destruct (decide (this = p)); reflexivity.
Qed.

(** X8. The scheduling information of an aggregate is plain storage: after a
    sequence of member calls on the nodes of the store that runs to its end,
    [scheduling_info] returns the value last assigned through it, or the
    value it had if there was no assignment. *)
Theorem scheduling_info_is_the_last_one_assigned
    calls h h' (p : address) (this : AggregateTask SchedulingInfo) :
  h !! p = Some (AggregateNode this) ->
  exec_all calls h = Done h' ->
  exists this',
    h' !! p = Some (AggregateNode this') /\
    scheduling_info this'
      = last_written (scheduling_info_written p) calls (scheduling_info this).
Proof.
  intros Hthis Hrun.
  destruct (exec_all_last_written scheduling_info_view (scheduling_info_written p) p
              (scheduling_info_step p) calls h h' (AggregateNode this) _ Hthis eq_refl Hrun)
    as (o' & Ho' & Hview).
  destruct o' as [n | r | a]; try discriminate.
  exists a. split; [exact Ho' |]. injection Hview as Hview. exact Hview.
Qed.

Lemma predecessor_step (p : address)
    (call : address * member_call SchedulingInfo) o b :
  predecessor_view o = Some b ->
  predecessor_view (effect_on p call o) = Some (default b (predecessor_written p call)).
Proof.
  destruct o as [n | r | a]; try discriminate. intros [= <-].
  destruct call as [this c]. unfold effect_on, predecessor_effect, predecessor_written.
  cbn [fst snd].
  destruct c; try destruct (decide (predecessor = p));
    destruct (decide (this = p)); reflexivity.
Qed.

(** X9. The predecessor link is single-assignment under any interleaving
    with other calls. If a runnable has a predecessor and a sequence of
    member calls on the nodes of the store runs to its end without a
    [clear_predecessor] on that runnable, then the sequence holds no
    [set_predecessor] on it either, and afterwards [get_predecessor] still
    returns the same predecessor. *)
Theorem predecessor_is_kept_until_cleared
    calls h h' (this predecessor : address) (self : RunnableTaskBase) :
  h !! this = Some (Runnable self) ->
  m_predecessor self = Some predecessor ->
  ~ In (this, call_clear_predecessor) calls ->
  exec_all calls h = Done h' ->
  (forall other, ~ In (this, call_set_predecessor other) calls) /\
  exists self',
    h' !! this = Some (Runnable self') /\
    m_predecessor self' = Some predecessor /\
    get_predecessor self' = Done predecessor.
Proof.
  revert h self. induction calls as [| [t c] rest IH]; intros h self Hself Hlink Hclear H.
  - injection H as <-. split; [intros other [] |].
    exists self. split; [exact Hself |]. split; [exact Hlink |].
    apply get_predecessor_of_link. exact Hlink.
  - cbn [exec_all] in H. invert_bind H.
    assert (Hhead : forall other, (t, c) <> (this, call_set_predecessor other)).
    { intros other [= -> ->]. cbn [exec] in Ha.
      rewrite (set_predecessor_aborts_when_set h this other self Hself
                 (has_predecessor_of_link self predecessor Hlink)) in Ha.
      discriminate. }
    assert (Hnot : (t, c) <> (this, call_clear_predecessor))
      by (intros Heq; apply Hclear; left; exact Heq).
    pose proof (exec_effect h a t c Ha this) as Hp. rewrite Hself in Hp.
    cbn [fmap option_fmap option_map] in Hp.
    pose proof (predecessor_step this (t, c) (Runnable self) _ eq_refl) as Hview.
    assert (Hsame : predecessor_written this (t, c) = None).
    { unfold predecessor_written.
      destruct c; try reflexivity; destruct (decide (t = this)) as [-> | Hne];
        try reflexivity.
      - exfalso. exact (Hnot eq_refl).
      - exfalso. exact (Hhead _ eq_refl). }
    rewrite Hsame in Hview. cbn [default] in Hview.
    destruct (effect_on this (t, c) (Runnable self)) as [n | self1 | a1];
      try discriminate.
    injection Hview as Hview. rewrite Hlink in Hview.
    destruct (IH a self1 Hp Hview (fun Hin => Hclear (or_intror Hin)) H)
      as (Hrest & self' & Hself' & Hlink' & Hget).
    split.
    + intros other [Heq | Hin]; [exact (Hhead other Heq) | exact (Hrest other Hin)].
    + exists self'. repeat split; assumption.
Qed.

Lemma consumed_step (p : address) (call : address * member_call SchedulingInfo) o :
  wait_queue_is_consumed (task_node_of (effect_on p call o)) =
    wait_queue_is_consumed (task_node_of o) || consumes_wait_queue_of p call.
Proof.
  destruct call as [this c]. unfold effect_on, predecessor_effect, consumes_wait_queue_of.
  cbn [fst snd]. unfold wait_queue_is_consumed.
  destruct c; try destruct (decide (predecessor = p));
    destruct (decide (this = p));
    try (rewrite bool_decide_eq_true_2 by assumption);
    try (rewrite bool_decide_eq_false_2 by assumption);
    destruct o;
    cbn [task_node_of callee_effect node_effect set_task_node m_wait_queue
           set_runnable_base set_aggregate_base runnable_base aggregate_base
           set_m_wait_queue is_consumed];
    try (unfold try_add_waiting;
         match goal with |- context [try_push _ ?q] => destruct q end);
    cbn; rewrite ?orb_false_r, ?orb_true_r; reflexivity.
Qed.

Lemma consume_wait_queue_consumed_aborts h (p : address) (this : TaskNode) :
  load_TaskNode h p = Done this ->
  wait_queue_is_consumed this = true ->
  exec p call_consume_wait_queue h = Aborted.
Proof.
  intros Hload Hc. cbn [exec]. rewrite Hload. cbn [mbind outcome_bind].
  unfold consume_wait_queue. unfold wait_queue_is_consumed in Hc. rewrite Hc.
  reflexivity.
Qed.

(** X10. The wait queue of a node is consumed once and for good. In a
    sequence of member calls on the nodes of the store that runs to its end
    there is at most one [consume_wait_queue] on a node, none if its queue
    was consumed to begin with, and afterwards [wait_queue_is_consumed]
    holds exactly if it held before or the sequence has a
    [consume_wait_queue] on the node. *)
Theorem wait_queue_is_consumed_at_most_once
    calls h h' (p : address) (this : TaskNode) :
  load_TaskNode h p = Done this ->
  exec_all calls h = Done h' ->
  (length (List.filter (consumes_wait_queue_of p) calls) <= 1)%nat /\
  (wait_queue_is_consumed this = true ->
     List.filter (consumes_wait_queue_of p) calls = []) /\
  exists this',
    load_TaskNode h' p = Done this' /\
    wait_queue_is_consumed this'
      = wait_queue_is_consumed this || existsb (consumes_wait_queue_of p) calls.
Proof.
  revert h this. induction calls as [| [t c] rest IH]; intros h this Hload H.
  - injection H as <-. split; [simpl; lia |]. split; [reflexivity |].
    exists this. split; [exact Hload |]. cbn [existsb]. rewrite orb_false_r. reflexivity.
  - cbn [exec_all] in H. invert_bind H.
    pose proof Hload as Hload0.
    apply load_TaskNode_Done in Hload as (o & Ho & <-).
    pose proof (exec_effect h a t c Ha p) as Hp. rewrite Ho in Hp.
    cbn [fmap option_fmap option_map] in Hp.
    pose proof (consumed_step p (t, c) o) as Hstep.
    destruct (IH a _ (load_TaskNode_eq a p _ Hp) H) as (Hle & Hnone & this' & Hload' & Hfinal).
    assert (Hhead : wait_queue_is_consumed (task_node_of o) = true ->
                    consumes_wait_queue_of p (t, c) = false).
    { intros Hc. destruct (consumes_wait_queue_of p (t, c)) eqn:Hcall; [| reflexivity].
      unfold consumes_wait_queue_of in Hcall. destruct c; try discriminate.
      apply bool_decide_eq_true_1 in Hcall. subst t.
      rewrite (consume_wait_queue_consumed_aborts h p _ Hload0 Hc) in Ha. discriminate. }
    cbn [List.filter existsb].
    destruct (consumes_wait_queue_of p (t, c)) eqn:Hcall.
    + rewrite orb_true_r in Hstep. rewrite (Hnone Hstep).
      split; [simpl; lia |].
      split; [intros Hc; specialize (Hhead Hc); discriminate |].
      exists this'. split; [exact Hload' |].
      rewrite Hfinal, Hstep. rewrite orb_true_r. reflexivity.
    + rewrite orb_false_r in Hstep.
      split; [exact Hle |].
      split; [intros Hc; apply Hnone; rewrite Hstep; exact Hc |].
      exists this'. split; [exact Hload' |].
      rewrite Hfinal, Hstep. reflexivity.
Qed.

Lemma decrement_call_needs_reference h h' (p : address) (this : TaskNode) :
  load_TaskNode h p = Done this ->
  exec p call_decrement_and_check_reference_count h = Done h' ->
  0 < ref_count this.
Proof.
  intros Hload H. cbn [exec] in H. rewrite Hload in H. cbn [mbind outcome_bind] in H.
  destruct (Z_lt_le_dec 0 (ref_count this)) as [Hpos | Hle]; [exact Hpos |].
  unfold TaskNode_decrement_and_check_reference_count in H.
  rewrite (decrement_nonpositive (reference_counted_base this) Hle) in H.
  discriminate.
Qed.

(** X15. A reference count does not go below zero. If the count of a node
    is not negative and a sequence of member calls on the nodes of the store
    runs to its end, too short to overflow the counter, then the count is
    not negative afterwards either, and has grown by at most the number of
    calls: the decrement that would take it below zero aborts instead. *)
Theorem reference_count_stays_nonnegative
    calls h h' (p : address) (this : TaskNode) :
  load_TaskNode h p = Done this ->
  0 <= ref_count this ->
  ref_count this + Z.of_nat (length calls) <= INT32_MAX ->
  exec_all calls h = Done h' ->
  exists this',
    load_TaskNode h' p = Done this' /\
    0 <= ref_count this' <= ref_count this + Z.of_nat (length calls).
Proof.
  revert h this. induction calls as [| [t c] rest IH]; intros h this Hload Hpos Hmax H.
  - injection H as <-. exists this. split; [exact Hload |]. simpl. lia.
  - cbn [exec_all] in H. invert_bind H. cbn [length] in Hmax.
    pose proof Hload as Hload0.
    apply load_TaskNode_Done in Hload as (o & Ho & <-).
    pose proof (exec_effect h a t c Ha p) as Hp. rewrite Ho in Hp.
    cbn [fmap option_fmap option_map] in Hp.
    pose proof (reference_count_step p (t, c) o) as Hstep.
    assert (Hnext : 0 <= ref_count (task_node_of (effect_on p (t, c) o))
                    <= ref_count (task_node_of o) + 1).
    { unfold INT32_MAX in Hmax.
      destruct (decide (reference_delta p (t, c) = 0)) as [Hd | Hd]; [lia |].
      assert (Hcases : reference_delta p (t, c) = 1 \/
                       (reference_delta p (t, c) = -1 /\
                        (t, c) = (p, call_decrement_and_check_reference_count))).
      { unfold reference_delta in *. destruct c;
          try (exfalso; apply Hd; reflexivity);
          try (destruct (decide (t = p)) as [-> | Hne];
               [| exfalso; apply Hd; reflexivity]);
          try (destruct (decide (predecessor = p));
               [| exfalso; apply Hd; reflexivity]);
          first [left; reflexivity | right; split; reflexivity]. }
      destruct Hcases as [Hd1 | [Hd1 Hcall]]; rewrite Hd1 in Hstep.
      - rewrite int32_t_in_range in Hstep
          by (unfold in_range; change (32 - 1) with 31; lia).
        lia.
      - injection Hcall as -> ->.
        pose proof (decrement_call_needs_reference h a p _ Hload0 Ha) as Hhas.
        rewrite int32_t_in_range in Hstep
          by (unfold in_range; change (32 - 1) with 31; lia).
        lia. }
    destruct (IH a _ (load_TaskNode_eq a p _ Hp) (proj1 Hnext)) as (this' & Hload' & Hb).
    + lia.
    + exact H.
    + exists this'. split; [exact Hload' |]. cbn [length]. lia.
Qed.

End Sequences.

(** ** Dispatch through the apply function *)

(** X11. [run] calls the function whose address the constructor was given,
    with the task and the member; without such a function it has no defined
    behaviour. No member call writes the function pointer: after a sequence
    of member calls on the nodes of the store that runs to its end, a
    runnable is still a runnable and [run] on it is what it was before. *)
Theorem run_calls_the_function_given_at_construction
    {SchedulingInfo World : Type}
    (code : address -> option (address -> member_type -> World -> outcome World))
    (calls : list (address * member_call SchedulingInfo))
    (h h' : gmap address (object SchedulingInfo)) (p : address)
    (this : RunnableTaskBase) :
  h !! p = Some (Runnable this) ->
  exec_all calls h = Done h' ->
  (exists this',
     h' !! p = Some (Runnable this') /\
     m_apply this' = m_apply this /\
     forall member w, run code p this' member w = run code p this member w) /\
  (forall f body task_type priority queue_base initial_reference_count allocation_size
          member w,
     code f = Some body ->
     run code p
       (RunnableTaskBase_ctor (Some f) task_type priority queue_base
          initial_reference_count allocation_size) member w
     = body p member w) /\
  (forall task_type priority queue_base initial_reference_count allocation_size member w,
     run code p
       (RunnableTaskBase_ctor nullptr task_type priority queue_base
          initial_reference_count allocation_size) member w
     = Undefined).
Proof.
  intros Hthis Hrun. split; [| split].
  - destruct (exec_all_keeps calls h h' Hrun p (Runnable this) Hthis)
      as (o' & Ho' & _ & _ & Hclass).
    destruct o' as [n | this' | a]; simpl in Hclass; try contradiction.
    exists this'. split; [exact Ho' |]. split; [exact Hclass |].
    intros member w. unfold run. rewrite Hclass. reflexivity.
  - intros f body task_type priority queue_base rc size member w Hf.
    unfold run. cbn [m_apply RunnableTaskBase_ctor]. rewrite Hf. reflexivity.
  - reflexivity.
Qed.

(** ** More on the execution of a runnable *)

Section ApplyPasses.

Context {SchedulingInfo ResultType FunctorType : Type}.
Variable functor_call :
  member_type ->
  RunnableTask SchedulingInfo ResultType FunctorType ->
  RunnableTask SchedulingInfo ResultType FunctorType.

Implicit Types (task self : RunnableTask SchedulingInfo ResultType FunctorType).
Implicit Types (t : thread) (team : list thread).

Lemma only_one_thread_key t :
  only_one_thread t = true <-> designation_key t = (0, 0).
Proof.
  unfold only_one_thread, designation_key. destruct (space t) as [| x y].
  - rewrite Z.eqb_eq. split; [intros <-; reflexivity | intros [= ->]; reflexivity].
  - rewrite andb_true_iff, !Z.eqb_eq.
    split; [intros [<- <-]; reflexivity | intros [= -> ->]; split; reflexivity].
Qed.

Lemma no_designated_without_key team :
  ~ In (0, 0) (List.map designation_key team) ->
  List.filter only_one_thread team = [].
Proof.
  induction team as [| t rest IH]; intros Hno.
  - reflexivity.
  - cbn [List.filter]. destruct (only_one_thread t) eqn:Hone.
    + exfalso. apply Hno. left. apply only_one_thread_key. exact Hone.
    + apply IH. intros Hin. apply Hno. right. exact Hin.
Qed.

Lemma at_most_one_designated team :
  List.NoDup (List.map designation_key team) ->
  (length (List.filter only_one_thread team) <= 1)%nat.
Proof.
  induction team as [| t rest IH]; intros Hnodup.
  - simpl. lia.
  - cbn [List.map] in Hnodup. apply NoDup_cons_iff in Hnodup as [Hfresh Hnodup].
    cbn [List.filter]. destruct (only_one_thread t) eqn:Hone.
    + apply only_one_thread_key in Hone. rewrite Hone in Hfresh.
      rewrite (no_designated_without_key rest Hfresh). simpl. lia.
    + apply IH. exact Hnodup.
Qed.

(** X12. No double destruction. In an execution pass by a team whose
    threads differ in rank (under CUDA, in thread index), the payload
    functor is destroyed at most once, whatever the payload does and
    whether or not the team has a thread of rank zero. *)
Theorem apply_destroys_functor_at_most_once team self :
  List.NoDup (List.map designation_key team) ->
  (length (snd (team_apply functor_call team self)) <= 1)%nat.
Proof.
  intros Hnodup. rewrite team_apply_eq. cbn [snd].
  destruct (get_respawn_flag _); [simpl; lia |].
  rewrite length_map. apply at_most_one_designated. exact Hnodup.
Qed.



(** X14. [apply] never writes the respawn flag. With a payload that leaves
    the flag alone, the flag after the pass is the flag before it, and the
    functor is destroyed by the designated threads exactly if the flag was
    not set on entry: a flag left over from an earlier pass keeps the
    functor alive until somebody resets it. *)
Theorem apply_leaves_respawn_flag_alone team self :
  (forall m task,
     get_respawn_flag (task_base (functor_call m task)) = get_respawn_flag (task_base task)) ->
  get_respawn_flag (task_base (fst (team_apply functor_call team self)))
    = get_respawn_flag (task_base self) /\
  snd (team_apply functor_call team self)
    = if get_respawn_flag (task_base self) then []
      else List.map functor_destroyed (List.filter only_one_thread team).
Proof.
  intros Hkeep. rewrite team_apply_eq. cbn [fst snd].
  assert (Hflag : get_respawn_flag
                    (task_base (fold_left
                                  (fun acc t => apply_functor functor_call (member t) acc)
                                  team self))
                  = get_respawn_flag (task_base self)).
  { revert self. induction team as [| t rest IH]; intros self; [reflexivity |].
    cbn [fold_left]. rewrite IH. apply Hkeep. }
  rewrite Hflag. split; reflexivity.
Qed.

End ApplyPasses.

(** * The properties at sample inputs *)

Lemma decrement_and_check_reference_count_reaches_zero_witness :
  decrement_and_check_reference_count (ReferenceCountedBase_ctor 0) = Aborted /\
  decrement_and_check_reference_count (ReferenceCountedBase_ctor (-3)) = Aborted /\
  exists this',
    decrement_and_check_reference_count (ReferenceCountedBase_ctor 1) = Done (true, this') /\
    m_ref_count this' = 0.
Proof.
  split.
  { apply (proj1 (decrement_and_check_reference_count_reaches_zero
                    (ReferenceCountedBase_ctor 0))).
    simpl. lia. }
  split.
  { apply (proj1 (decrement_and_check_reference_count_reaches_zero
                    (ReferenceCountedBase_ctor (-3)))).
    simpl. lia. }
  destruct (decrement_and_check_reference_count_reaches_zero (ReferenceCountedBase_ctor 1))
    as (_ & Hpos & _).
  destruct Hpos as (this' & Hrun & Hcount); [simpl; lia |].
  exists this'. split; [exact Hrun |].
  rewrite Hcount; [reflexivity |]. unfold in_range. simpl. lia.
Defined.

Lemma consume_wait_queue_visits_each_waiter_once_witness :
  exists this1 this2 visited,
    try_add_waiting_all [5; 6; 9]%positive (runnable_base sample_runnable)
      = ([true; true; true], this1) /\
    consume_wait_queue record_visit this1 [] = Done (this2, visited) /\
    Permutation visited [5; 6; 9]%positive /\
    count_occ Pos.eq_dec visited 6%positive = 1%nat /\
    wait_queue_is_consumed this2 = true /\
    try_add_waiting 11%positive this2 = (false, this2).
Proof.
  destruct (consume_wait_queue_visits_each_waiter_once
              (runnable_base sample_runnable) [] [5; 6; 9]%positive eq_refl)
    as (this1 & this2 & visited & Hadd & Hconsume & _ & Hperm & _ & Honce
        & Hconsumed & Hlate & _).
  exists this1, this2, visited.
  split; [exact Hadd |]. split; [exact Hconsume |]. split; [exact Hperm |].
  split.
  { apply Honce.
    - repeat constructor; simpl; intuition discriminate.
    - simpl. auto. }
  split; [exact Hconsumed | apply Hlate].
Defined.

Lemma apply_destroys_functor_on_rank_zero_unless_respawn_witness :
  (exists t,
     snd (team_apply (sample_functor_call false) sample_team sample_task)
       = [functor_destroyed t] /\
     team_rank (member t) = 0) /\
  snd (team_apply (sample_functor_call true) sample_team sample_task) = [].
Proof.
  split.
  - destruct (apply_destroys_functor_on_rank_zero_unless_respawn
                (sample_functor_call false) sample_team sample_task)
      as (task & events & Hrun & Htask & _ & _ & _ & Hone & _).
    destruct Hone as (t & Hev & _ & Hrank).
    + rewrite Htask. reflexivity.
    + intros t [<- | [<- | [<- | []]]]; reflexivity.
    + repeat constructor; simpl; intuition discriminate.
    + simpl. auto.
    + exists t. rewrite Hrun. split; [exact Hev | exact Hrank].
  - destruct (apply_destroys_functor_on_rank_zero_unless_respawn
                (sample_functor_call true) sample_team sample_task)
      as (task & events & Hrun & Htask & _ & Hnone & _).
    rewrite Hrun. apply Hnone. rewrite Htask. reflexivity.
Defined.

Lemma set_predecessor_once_witness :
  exists h' pred' self',
    set_predecessor 1%positive 2%positive sample_store = Done h' /\
    load_TaskNode h' 2%positive = Done pred' /\
    ref_count pred' = 2 /\
    load_RunnableTaskBase h' 1%positive = Done self' /\
    get_predecessor self' = Done 2%positive /\
    set_predecessor 1%positive 2%positive h' = Aborted.
Proof.
  destruct (set_predecessor_once sample_store 1%positive 2%positive sample_runnable
              (aggregate_base sample_aggregate) eq_refl eq_refl)
    as (_ & Hset).
  destruct (Hset eq_refl)
    as (_ & h' & pred' & self' & Hrun & Hpred & _ & _ & Hcount & Hself & _ & Hget & Hagain & _).
  exists h', pred', self'.
  split; [exact Hrun |]. split; [exact Hpred |].
  split.
  { change (ref_count (aggregate_base sample_aggregate)) with 1 in Hcount.
    rewrite Hcount; [reflexivity | | ]; unfold in_range, INT32_MAX; simpl; lia. }
  split; [exact Hself |]. split; [exact Hget | apply Hagain].
Defined.

Lemma task_kind_is_fixed_at_construction_witness :
  exec_all sample_calls sample_store = Done sample_store_after_calls /\
  exists this',
    load_TaskNode sample_store_after_calls 1%positive = Done this' /\
    get_task_type this' = TaskSingle /\
    is_single_runnable this' = true.
Proof.
  assert (Hrun : exec_all sample_calls sample_store = Done sample_store_after_calls)
    by (vm_compute; reflexivity).
  split; [exact Hrun |].
  destruct (task_kind_is_fixed_at_construction sample_calls sample_store
              sample_store_after_calls 1%positive (runnable_base sample_runnable)
              eq_refl Hrun)
    as ((this' & Hload & Hkind & _ & _ & Hsingle & _) & _).
  exists this'. split; [exact Hload |]. split; [exact Hkind | exact Hsingle].
Defined.


Lemma set_priority_requires_not_enqueued_witness :
  (exists this',
     set_priority Low (runnable_base sample_runnable) = Done this' /\
     get_priority this' = Low) /\
  set_priority Low
    (set_intrusive_task_base {| m_is_enqueued := true |} (runnable_base sample_runnable))
    = Aborted.
Proof.
  split.
  - destruct (set_priority_requires_not_enqueued Low (runnable_base sample_runnable))
      as (_ & Hfree).
    destruct (Hfree eq_refl) as (this' & Hset & Henum & _).
    exists this'. split; [exact Hset |]. apply Henum. right. right. reflexivity.
  - apply (proj1 (set_priority_requires_not_enqueued Low
                    (set_intrusive_task_base {| m_is_enqueued := true |}
                       (runnable_base sample_runnable)))).
    reflexivity.
Defined.

Lemma clear_predecessor_keeps_reference_witness :
  exists h' self' pred,
    exec 1%positive call_clear_predecessor sample_store_linked = Done h' /\
    load_RunnableTaskBase h' 1%positive = Done self' /\
    has_predecessor self' = false /\
    load_TaskNode sample_store_linked 2%positive = Done pred /\
    load_TaskNode h' 2%positive = Done pred /\
    ref_count pred = 2 /\
    is_done (set_predecessor 1%positive 2%positive h') = true.
Proof.
  assert (Hself : sample_store_linked !! 1%positive
                  = Some (Runnable (set_m_predecessor (Some 2%positive) sample_runnable)))
    by (vm_compute; reflexivity).
  assert (Hpred : sample_store_linked !! 2%positive
                  = Some (AggregateNode
                            (set_aggregate_base
                               (TaskNode_increment_reference_count
                                  (aggregate_base sample_aggregate))
                               sample_aggregate)))
    by (vm_compute; reflexivity).
  destruct (clear_predecessor_keeps_reference sample_store_linked 1%positive 2%positive
              (set_m_predecessor (Some 2%positive) sample_runnable) Hself eq_refl)
    as (h' & self' & Hrun & Hload & _ & _ & Hnone & _ & _ & Hnodes & _ & Hagain).
  exists h', self', (TaskNode_increment_reference_count (aggregate_base sample_aggregate)).
  split; [exact Hrun |]. split; [exact Hload |]. split; [exact Hnone |].
  assert (Hnode : load_TaskNode sample_store_linked 2%positive
                  = Done (TaskNode_increment_reference_count
                            (aggregate_base sample_aggregate))).
  { exact (load_TaskNode_eq sample_store_linked 2%positive _ Hpred). }
  split; [exact Hnode |].
  split; [rewrite Hnodes; exact Hnode |].
  split; [reflexivity |].
  destruct (Hagain 2%positive _ Hpred) as (h'' & self'' & Hset & _).
  rewrite Hset. reflexivity.
Defined.


(** ** The further properties at sample inputs *)

Lemma allocation_size_is_fixed_at_construction_witness :
  exists this',
    load_TaskNode sample_store_after_calls 1%positive = Done this' /\
    get_allocation_size (pool_allocated_base this') = 128.
Proof.
  assert (Hrun : exec_all sample_calls sample_store = Done sample_store_after_calls)
    by (vm_compute; reflexivity).
  destruct (allocation_size_is_fixed_at_construction sample_calls sample_store
              sample_store_after_calls 1%positive (runnable_base sample_runnable)
              eq_refl Hrun)
    as ((this' & Hload & Hsize) & _).
  exists this'. split; [exact Hload | exact Hsize].
Defined.

Lemma increment_then_decrement_restores_witness :
  decrement_and_check_reference_count
    (increment_reference_count (ReferenceCountedBase_ctor 0))
    = Done (true, ReferenceCountedBase_ctor 0) /\
  decrement_and_check_reference_count
    (increment_reference_count (ReferenceCountedBase_ctor 5))
    = Done (false, ReferenceCountedBase_ctor 5) /\
  decrement_and_check_reference_count
    (increment_reference_count (ReferenceCountedBase_ctor (-2))) = Aborted.
Proof.
  split; [| split].
  - apply (proj1 (increment_then_decrement_restores (ReferenceCountedBase_ctor 0))).
    unfold INT32_MAX. simpl. lia.
  - apply (proj1 (increment_then_decrement_restores (ReferenceCountedBase_ctor 5))).
    unfold INT32_MAX. simpl. lia.
  - apply (proj2 (increment_then_decrement_restores (ReferenceCountedBase_ctor (-2)))).
    + unfold in_range. simpl. lia.
    + simpl. lia.
Defined.

Lemma decrement_times_last_reports_zero_witness :
  decrement_times 2 (ReferenceCountedBase_ctor 3)
    = Done ([false; false], ReferenceCountedBase_ctor 1) /\
  decrement_times 3 (ReferenceCountedBase_ctor 3)
    = Done ([false; false; true], ReferenceCountedBase_ctor 0) /\
  decrement_times 4 (ReferenceCountedBase_ctor 3) = Aborted.
Proof.
  destruct (decrement_times_last_reports_zero (ReferenceCountedBase_ctor 3))
    as (Hbelow & Hexact & Hbeyond).
  - simpl. lia.
  - unfold in_range. simpl. lia.
  - split; [| split].
    + apply (Hbelow 2%nat). simpl. lia.
    + exact Hexact.
    + apply (Hbeyond 4%nat). simpl. lia.
Defined.

Lemma reference_count_is_accounted_for_witness :
  net_references 2%positive sample_calls = 0 /\
  exists this',
    load_TaskNode sample_store_after_calls 2%positive = Done this' /\
    ref_count this' = 1.
Proof.
  split; [reflexivity |].
  assert (Hrun : exec_all sample_calls sample_store = Done sample_store_after_calls)
    by (vm_compute; reflexivity).
  destruct (reference_count_is_accounted_for sample_calls sample_store
              sample_store_after_calls 2%positive (aggregate_base sample_aggregate)
              eq_refl)
    as (this' & Hload & _ & Hexact).
  - change (ref_count (aggregate_base sample_aggregate)) with 1.
    unfold in_range. simpl. lia.
  - exact Hrun.
  - exists this'. split; [exact Hload |].
    change (ref_count (aggregate_base sample_aggregate)
            + net_references 2%positive sample_calls) with 1 in Hexact.
    apply Hexact. unfold in_range. simpl. lia.
Defined.

Lemma priority_is_stored_in_16_bits_witness :
  (exists this',
     set_priority 70000 (runnable_base sample_runnable) = Done this' /\
     get_priority this' <> 70000) /\
  (exists this',
     set_priority Low (runnable_base sample_runnable) = Done this' /\
     get_priority this' = Low).
Proof.
  split.
  - exists (set_m_priority (int16_t 70000) (runnable_base sample_runnable)).
    split; [reflexivity |].
    destruct (priority_is_stored_in_16_bits 70000) as (_ & Hset).
    destruct (Hset (runnable_base sample_runnable) _ eq_refl) as (_ & Hiff).
    intros Heq. apply Hiff in Heq. unfold in_range in Heq. simpl in Heq. lia.
  - exists (set_m_priority (int16_t Low) (runnable_base sample_runnable)).
    split; [reflexivity |].
    destruct (priority_is_stored_in_16_bits Low) as (_ & Hset).
    destruct (Hset (runnable_base sample_runnable) _ eq_refl) as (_ & Hiff).
    apply Hiff. unfold in_range, Low. simpl. lia.
Defined.

Lemma priority_is_the_last_one_set_witness :
  exists this',
    load_TaskNode sample_store_after_calls 1%positive = Done this' /\
    get_priority this' = High.
Proof.
  assert (Hrun : exec_all sample_calls sample_store = Done sample_store_after_calls)
    by (vm_compute; reflexivity).
  destruct (priority_is_the_last_one_set sample_calls sample_store
              sample_store_after_calls 1%positive (runnable_base sample_runnable)
              eq_refl Hrun)
    as (this' & Hload & Hpriority).
  exists this'. split; [exact Hload |]. rewrite Hpriority. reflexivity.
Defined.

Lemma respawn_flag_is_the_last_one_set_witness :
  exists this',
    sample_store_after_calls !! 1%positive = Some (Runnable this') /\
    get_respawn_flag this' = true.
Proof.
  assert (Hrun : exec_all sample_calls sample_store = Done sample_store_after_calls)
    by (vm_compute; reflexivity).
  assert (Hthis : sample_store !! 1%positive = Some (Runnable sample_runnable))
    by reflexivity.
  destruct (respawn_flag_is_the_last_one_set sample_calls sample_store
              sample_store_after_calls 1%positive sample_runnable Hthis Hrun)
    as (this' & Hthis' & Hflag).
  exists this'. split; [exact Hthis' |]. rewrite Hflag. reflexivity.
Defined.

Lemma scheduling_info_is_the_last_one_assigned_witness :
  exists this',
    sample_store_after_linked_calls !! 2%positive = Some (AggregateNode this') /\
    scheduling_info this' = tt.
Proof.
  assert (Hrun : exec_all sample_calls_linked sample_store_linked
                 = Done sample_store_after_linked_calls)
    by (vm_compute; reflexivity).
  assert (Hpred : sample_store_linked !! 2%positive
                  = Some (AggregateNode
                            (set_aggregate_base
                               (TaskNode_increment_reference_count
                                  (aggregate_base sample_aggregate))
                               sample_aggregate)))
    by (vm_compute; reflexivity).
  destruct (scheduling_info_is_the_last_one_assigned sample_calls_linked
              sample_store_linked sample_store_after_linked_calls 2%positive _ Hpred Hrun)
    as (this' & Hthis' & Hinfo).
  exists this'. split; [exact Hthis' |]. rewrite Hinfo. reflexivity.
Defined.

Lemma predecessor_is_kept_until_cleared_witness :
  exists self',
    sample_store_after_linked_calls !! 1%positive = Some (Runnable self') /\
    get_predecessor self' = Done 2%positive.
Proof.
  assert (Hrun : exec_all sample_calls_linked sample_store_linked
                 = Done sample_store_after_linked_calls)
    by (vm_compute; reflexivity).
  assert (Hself : sample_store_linked !! 1%positive
                  = Some (Runnable (set_m_predecessor (Some 2%positive) sample_runnable)))
    by (vm_compute; reflexivity).
  destruct (predecessor_is_kept_until_cleared sample_calls_linked sample_store_linked
              sample_store_after_linked_calls 1%positive 2%positive _ Hself eq_refl)
    as (_ & self' & Hself' & _ & Hget).
  - intros [H | [H | [H | [H | []]]]]; discriminate H.
  - exact Hrun.
  - exists self'. split; [exact Hself' | exact Hget].
Defined.

Lemma wait_queue_is_consumed_at_most_once_witness :
  exists this',
    load_TaskNode sample_store_after_calls 2%positive = Done this' /\
    wait_queue_is_consumed this' = true /\
    exec 2%positive call_consume_wait_queue sample_store_after_calls = Aborted.
Proof.
  assert (Hrun : exec_all sample_calls sample_store = Done sample_store_after_calls)
    by (vm_compute; reflexivity).
  destruct (wait_queue_is_consumed_at_most_once sample_calls sample_store
              sample_store_after_calls 2%positive (aggregate_base sample_aggregate)
              eq_refl Hrun)
    as (_ & _ & this' & Hload & Hconsumed).
  exists this'. split; [exact Hload |]. split; [rewrite Hconsumed; reflexivity |].
  vm_compute. reflexivity.
Defined.

Lemma run_calls_the_function_given_at_construction_witness :
  exists this',
    sample_store_after_calls !! 1%positive = Some (Runnable this') /\
    run sample_code 1%positive this' {| m_team_rank := 0; m_team_size := 1 |} 4%nat
      = Done 5%nat.
Proof.
  assert (Hrun : exec_all sample_calls sample_store = Done sample_store_after_calls)
    by (vm_compute; reflexivity).
  assert (Hthis : sample_store !! 1%positive = Some (Runnable sample_runnable))
    by reflexivity.
  destruct (run_calls_the_function_given_at_construction sample_code sample_calls
              sample_store sample_store_after_calls 1%positive sample_runnable Hthis Hrun)
    as ((this' & Hthis' & _ & Hsame) & _).
  exists this'. split; [exact Hthis' |]. rewrite Hsame. reflexivity.
Defined.

Lemma apply_destroys_functor_at_most_once_witness :
  (length (snd (team_apply (sample_functor_call false) sample_team sample_task)) <= 1)%nat.
Proof.
  apply (apply_destroys_functor_at_most_once (sample_functor_call false)
           sample_team sample_task).
  repeat constructor; simpl; intuition discriminate.
Defined.


Lemma apply_leaves_respawn_flag_alone_witness :
  snd (team_apply (sample_functor_call false) sample_team
         {| task_base := set_respawn_flag None sample_runnable;
            task_scheduling_info := tt;
            functor := tt;
            result_storage := {| m_value := tt |} |}) = [].
Proof.
  refine (proj2 (apply_leaves_respawn_flag_alone (sample_functor_call false)
                   sample_team _ _)).
  intros m task. reflexivity.
Defined.

Lemma reference_count_stays_nonnegative_witness :
  exists this',
    load_TaskNode sample_store_after_calls 2%positive = Done this' /\
    0 <= ref_count this' <= 9.
Proof.
  assert (Hrun : exec_all sample_calls sample_store = Done sample_store_after_calls)
    by (vm_compute; reflexivity).
  destruct (reference_count_stays_nonnegative sample_calls sample_store
              sample_store_after_calls 2%positive (aggregate_base sample_aggregate)
              eq_refl)
    as (this' & Hload & Hbounds).
  - change (ref_count (aggregate_base sample_aggregate)) with 1. lia.
  - change (ref_count (aggregate_base sample_aggregate)) with 1.
    unfold INT32_MAX. simpl. lia.
  - exact Hrun.
  - exists this'. split; [exact Hload |].
    change (ref_count (aggregate_base sample_aggregate)) with 1 in Hbounds.
    simpl in Hbounds. lia.
Defined.
